(** * Deribit order-book history: analytics wrapper and loader scheduling

    A shallow embedding of [influxdb_wrapper.py] (class [InfluxDBWrapper]) and
    of [get_next_run_time] from [deribit_loader.py], with the properties of
    the bracket resolver, the tenor interpolation, the vol-surface pivot, the
    butterfly metric, the filter-predicate builder and the scheduler.

    Conventions of the embedding:
    - a Python [int] is a [Z]; [%] is [Z.modulo] (both take the sign of the
      divisor);
    - a [datetime.date] is its day ordinal (a [Z]); a midnight timestamp is
      [86400 * ordinal] seconds; a time difference is a number of seconds and
      its [.days] attribute is the floor quotient by 86400;
    - a [float] is an exact rational ([Qc]): rounding is not modelled;
    - a raised exception is the [Raise] outcome of the [result] type, and
      statements run in the order the source evaluates them. *)

From Equations Require Import Equations.
From stdpp Require Import base option list sorting numbers gmap strings.
From Stdlib Require Import ZArith QArith Qcanon Lia.
From Stdlib Require Import DecimalString.

Local Open Scope Z_scope.

(** ** Exceptions and outcomes *)

(** The exception classes that matter here.  The first four are Python's
    built-in ones, raised by list indexing, by pandas label lookup, by
    [DataFrame.pivot] and by [/] on [int].  The other five are the error
    kinds the specification names; no statement of the source raises them. *)
Inductive exception : Type :=
| IndexError
| KeyError
| ValueError
| ZeroDivisionError
| QueryFailure
| AmbiguousPivot
| MissingDeltaBucket
| CalendarExhausted
| DegenerateBracket.

Inductive result (A : Type) : Type :=
| Ok (a : A)
| Raise (e : exception).
Arguments Ok {A} a.
Arguments Raise {A} e.

(** Sequencing: an exception raised by the first statement skips the rest. *)
#[global] Instance result_ret : MRet result := fun A a => Ok a.
#[global] Instance result_bind : MBind result := fun A B k r =>
  match r with
  | Ok a => k a
  | Raise e => Raise e
  end.

(** [l[i]] on a Python list with a non-negative index. *)
Definition getitem {A : Type} (l : list A) (i : nat) : result A :=
  match l !! i with
  | Some a => Ok a
  | None => Raise IndexError
  end.

(** A value together with the equation that it is this value, so that a
    case analysis keeps the fact it was made on. *)
Definition inspect {A : Type} (x : A) : {y : A | x = y} := exist _ x eq_refl.

(** ** Expiry calendar bracket resolver *)

Module Bracket.

(** The inner [while expiry2 < current_tenor] loop of
    [_get_historical_nearby_expiries_for_tenor], entered with the loop
    variables [expiry1], [expiry2] and [idx].  Each round reads
    [day_expiries[idx]] and [day_expiries[idx+1]]; a read past the end raises,
    so the distance from [idx] to the end of the list decreases. *)
Equations? walk (day_expiries : list Z) (current_tenor : Z)
    (expiry1 expiry2 : Z) (idx : nat) : result (Z * Z)
    by wf (length day_expiries - idx)%nat lt :=
  walk day_expiries current_tenor expiry1 expiry2 idx
    with Z.ltb expiry2 current_tenor => {
    | false => Ok (expiry1, expiry2)
    | true with inspect (day_expiries !! idx) => {
      | exist _ None _ => Raise IndexError
      | exist _ (Some e1) Hidx with day_expiries !! S idx => {
        | None => Raise IndexError
        | Some e2 => walk day_expiries current_tenor e1 e2 (S idx) } } }.
Proof.
  apply lookup_lt_Some in Hidx. lia.
Qed.

(** The body of the per-day loop: the first two reads, then the walk. *)
Definition resolve_day (day_expiries : list Z) (current_tenor : Z)
    : result (Z * Z) :=
  expiry1 ← getitem day_expiries 0;
  expiry2 ← getitem day_expiries 1;
  walk day_expiries current_tenor expiry1 expiry2 1.

(** [e1] and [e2] are two consecutive entries of the calendar. *)
Definition adjacent (day_expiries : list Z) (e1 e2 : Z) : Prop :=
  exists i : nat, day_expiries !! i = Some e1 /\ day_expiries !! S i = Some e2.

(** The calendar cannot bracket the target: it has fewer than two entries,
    or every entry is before the target. *)
Definition exhausted (day_expiries : list Z) (current_tenor : Z) : Prop :=
  (length day_expiries < 2)%nat \/ Forall (fun e => e < current_tenor) day_expiries.

Section Resolver.

(** The two helpers imported from [utils], which is not part of the
    sources: the calendar of a day and the target date of a tenor. *)
Variable build_option_expiries : Z -> list Z.
Variable add_tenor : Z -> string -> Z.

(** The outer [while current_day <= range_end] loop; [n] is the number of
    days left, [current_day] the day being resolved.  The first failing
    day aborts the call. *)
Fixpoint resolve_days (n : nat) (current_day : Z) (tenor : string)
    : result (list (Z * Z * Z)) :=
  match n with
  | O => Ok []
  | S n' =>
      b ← resolve_day (build_option_expiries current_day)
                      (add_tenor current_day tenor);
      rest ← resolve_days n' (current_day + 1) tenor;
      Ok ((current_day, b.1, b.2) :: rest)
  end.

(** [_get_historical_nearby_expiries_for_tenor], on the dates of
    [range_start] and [range_end]; the rows are (date, expiry1, expiry2). *)
Definition _get_historical_nearby_expiries_for_tenor
    (range_start range_end : Z) (tenor : string)
    : result (list (Z * Z * Z)) :=
  resolve_days (Z.to_nat (range_end - range_start + 1)) range_start tenor.

End Resolver.

End Bracket.

(** ** Floating-point values *)

(** A [float64] cell: a number, or [NaN] for a missing value.  Arithmetic on
    numbers is exact; [NaN] is absorbing. *)
Inductive float : Type :=
| Num (q : Qc)
| NaN.
Arguments Num q%_Qc.

Definition float_lift2 (op : Qc -> Qc -> Qc) (x y : float) : float :=
  match x, y with
  | Num a, Num b => Num (op a b)
  | _, _ => NaN
  end.

Definition fadd : float -> float -> float := float_lift2 Qcplus.
Definition fsub : float -> float -> float := float_lift2 Qcminus.
Definition fmul : float -> float -> float := float_lift2 Qcmult.

(** [float(z)] for a Python [int]. *)
Definition Z2Qc (z : Z) : Qc := Q2Qc (inject_Z z).

(** [a / b] on Python [int]s: true division, which raises on a zero divisor. *)
Definition truediv (a b : Z) : result Qc :=
  if decide (b = 0) then Raise ZeroDivisionError
  else Ok (Z2Qc a / Z2Qc b)%Qc.

(** ** Tenor interpolation engine *)

Module Tenor.

(** [td.days] of a time difference of [td] seconds: the floor quotient. *)
Definition days (td : Z) : Z := td / 86400.

(** The timestamp of [pd.to_datetime] on a ["%Y-%m-%d"] date string. *)
Definition midnight (d : Z) : Z := 86400 * d.

(** One row of [tenor_vols] as [iterrows] yields it.  The row holds
    timestamps and integers, so it has dtype [object] and its integers are
    Python [int]s. *)
Record row : Type := {
  expiry1 : Z;
  expiry2 : Z;
  rolling_expiry : Z;
  diff_to_exp1 : Z;
  diff_to_exp2 : Z;
  diff_exp : Z
}.

(** [abs((tenor_vols[expiry] - tenor_vols['rolling_expiry']).dt.days)]. *)
Definition diff_to_exp (expiry rolling : Z) : Z :=
  Z.abs (days (midnight expiry - rolling)).

(** The columns of [tenor_vols] for one timestamp: the bracket of the day
    ([e1], [e2], as day ordinals) and the target timestamp [rolling]
    (seconds), the value of [add_tenor] on the observation timestamp. *)
Definition tenor_row (e1 e2 rolling : Z) : row :=
  {| expiry1 := e1; expiry2 := e2; rolling_expiry := rolling;
     diff_to_exp1 := diff_to_exp e1 rolling;
     diff_to_exp2 := diff_to_exp e2 rolling;
     diff_exp := diff_to_exp e1 rolling + diff_to_exp e2 rolling |}.

(** [vols.loc[idx, expiry.strftime("%Y-%m-%d")]]: the cell of the expiry's
    column in the row of [vols] at the timestamp; an unknown column label
    raises. *)
Definition loc (vols_row : gmap Z float) (expiry : Z) : result float :=
  match vols_row !! expiry with
  | Some v => Ok v
  | None => Raise KeyError
  end.

(** The factor [1 - row[diff] / row['diff_exp']]. *)
Definition weight (diff total : Z) : result Qc :=
  q ← truediv diff total;
  Ok (1 - q)%Qc.

(** [(1 - row[diff] / row['diff_exp']) * vols.loc[idx, expiry]]: the left
    operand is evaluated before the lookup. *)
Definition interp_vol (diff total : Z) (vols_row : gmap Z float)
    (expiry : Z) : result float :=
  w ← weight diff total;
  v ← loc vols_row expiry;
  Ok (fmul (Num w) v).

(** The body of the [for idx, row in tenor_vols.iterrows()] loop: the value
    stored in [tenor_vols.loc[idx, 'value']]. *)
Definition interpolate_row (r : row) (vols_row : gmap Z float) : result float :=
  interp_vol1 ← interp_vol (diff_to_exp1 r) (diff_exp r) vols_row (expiry1 r);
  interp_vol2 ← interp_vol (diff_to_exp2 r) (diff_exp r) vols_row (expiry2 r);
  Ok (fadd interp_vol1 interp_vol2).

(** The whole loop over the rows, in index order; each entry pairs the row
    of [tenor_vols] with the row of [vols] at the same timestamp. *)
Fixpoint interpolate_rows (rows : list (Z * row * gmap Z float))
    : result (list (Z * float)) :=
  match rows with
  | [] => Ok []
  | (idx, r, vols_row) :: rest =>
      v ← interpolate_row r vols_row;
      vs ← interpolate_rows rest;
      Ok ((idx, v) :: vs)
  end.

(** The target as a whole number of days: the day a target timestamp falls
    on, rounded up when it has a time of day. *)
Definition target_day (rolling : Z) : Z := - ((- rolling) / 86400).

End Tenor.

(** Linear interpolation between the points [(x0, y0)] and [(x1, y1)], as
    the specification names it. *)
Definition linear_interpolation (x0 : Z) (y0 : Qc) (x1 : Z) (y1 : Qc) (x : Z) : Qc :=
  (y0 + (y1 - y0) * (Z2Qc (x - x0) / Z2Qc (x1 - x0)))%Qc.

(** ** Filter predicate builder *)

Module Predicate.

(** A scalar argument: a string such as ['mid_iv'] or an integer. *)
Inductive scalar : Type :=
| PyStr (s : string)
| PyInt (z : Z).

(** [str(v)], the text an f-string puts for [{v}]. *)
Definition str (v : scalar) : string :=
  match v with
  | PyStr s => s
  | PyInt z => NilEmpty.string_of_int (Z.to_int z)
  end.

(** The argument of the builder: [isinstance(arg, list)] tells the two. *)
Inductive arg : Type :=
| Scalar (v : scalar)
| List (l : list scalar).

Definition dquote : string := String (Ascii.ascii_of_nat 34) EmptyString.

(** The f-string that puts [{v}] between double quotes. *)
Definition quoted (v : scalar) : string := dquote +:+ str v +:+ dquote.

(** [_write_influx_field(arg, arg_name)]; [arg[0]] raises on an empty list. *)
Definition _write_influx_field (a : arg) (arg_name : string) : result string :=
  match a with
  | Scalar v => Ok (quoted v)
  | List l =>
      first ← getitem l 0;
      Ok (fold_left
            (fun r_arg a => r_arg +:+ " or r." +:+ arg_name +:+ " == " +:+ quoted a)
            (drop 1 l) (quoted first))
  end.

End Predicate.

(** ** Surface reconstructor *)

Module Surface.

(** A table with row labels, column labels and the cells that hold a value;
    a cell of the grid without an entry is missing. *)
Record DataFrame : Type := {
  index : list string;
  columns : list string;
  cells : gmap (string * string) float
}.

Definition deltas : list string :=
  ["5P"; "10P"; "15P"; "20P"; "25P"; "30P"; "35P"; "40P"; "45P"; "ATM";
   "45C"; "40C"; "35C"; "30C"; "25C"; "20C"; "15C"; "10C"; "5C"].

(** The sorted distinct labels of one column of the input. *)
Definition labels (l : list string) : list string :=
  merge_sort String.le (remove_dups l).

(** [data.pivot(index='expiry', columns='delta', values='vol')] on the rows
    [(expiry, delta, vol)]: an (expiry, delta) pair given twice cannot be
    reshaped. *)
Definition pivot (data : list (string * string * float)) : result DataFrame :=
  if decide (NoDup (data.*1)) then
    Ok {| index := labels (data.*1.*1);
          columns := labels (data.*1.*2);
          cells := list_to_map data |}
  else Raise ValueError.

(** [df[key]] with a list of column labels: every label must be a column,
    and the selection has the columns of [key], in the order of [key]. *)
Definition getitem_columns (df : DataFrame) (key : list string) : result DataFrame :=
  if decide (Forall (fun k => k ∈ columns df) key) then
    Ok {| index := index df;
          columns := key;
          cells := filter (fun kv => kv.1.2 ∈ key) (cells df) |}
  else Raise KeyError.

(** [get_vol_surface_for_obs_time], from the rows of the query result. *)
Definition get_vol_surface_for_obs_time (data : list (string * string * float))
    : result DataFrame :=
  df ← pivot data;
  getitem_columns df deltas.

End Surface.

(** ** Derived metric calculator *)

Module Metric.

(** A row of [history]: the index label and the four columns. *)
Record obs : Type := {
  timestamp : Z;
  value : float;
  field : string;
  delta : string;
  tenor : string
}.

(** A series: values by index label.  The labels of a selection of
    [history] for one (delta, field, tenor) are distinct, as they come from
    the index of one pivot. *)
Definition select (history : list obs) (t f d : string) : gmap Z float :=
  list_to_map
    ((fun r => (timestamp r, value r)) <$>
       filter (fun r => tenor r = t ∧ field r = f ∧ delta r = d) history).

(** No two rows of [history] are for the same label, field, delta and
    tenor. *)
Definition unique_index (history : list obs) : Prop :=
  NoDup ((fun r => (timestamp r, field r, delta r, tenor r)) <$> history).

(** A binary operator on two series: the labels are aligned, and a label
    that one side lacks gives [NaN]. *)
Definition series_op (op : float -> float -> float) (a b : gmap Z float)
    : gmap Z float :=
  merge (fun x y =>
           match x, y with
           | Some u, Some v => Some (op u v)
           | None, None => None
           | _, _ => Some NaN
           end) a b.

(** [k * series]. *)
Definition series_scale (k : Z) (a : gmap Z float) : gmap Z float :=
  fmul (Num (Z2Qc k)) <$> a.

(** [res['value']] for one (d, f, t) of the loops. *)
Definition butterfly_value (history : list obs) (d f t : string) : gmap Z float :=
  series_op fsub
    (series_op fadd (select history t f (d +:+ "C")) (select history t f (d +:+ "P")))
    (series_scale 2 (select history t f "ATM")).

(** The order of two entries of a series: by label. *)
Definition label_le (x y : Z * float) : Prop := x.1 <= y.1.

#[global] Instance label_le_dec : RelDecision label_le :=
  fun x y => decide (x.1 <= y.1).

(** The rows of [res] for one (d, f, t), by ascending label. *)
Definition butterfly_rows (history : list obs) (d f t : string) : list obs :=
  (fun kv => {| timestamp := kv.1; value := kv.2;
                field := f; delta := d; tenor := t |}) <$>
    merge_sort label_le (map_to_list (butterfly_value history d f t)).

(** The three nested loops of [get_historical_butterfly_by_delta_and_tenor]
    over the tenor series [history], the table that
    [get_historical_vol_for_delta_and_tenor] returned, indexed by timestamp.
    A scalar argument has been wrapped into a one-element list, and [delta]
    holds the text [str(d)] of each requested delta. *)
Definition get_historical_butterfly_by_delta_and_tenor (history : list obs)
    (delta field tenor : list string) : list obs :=
  d ← delta; f ← field; t ← tenor; butterfly_rows history d f t.

End Metric.

(** ** Loader scheduling *)

Module Loader.

Definition timeframe_minutes : gmap string Z :=
  list_to_map [("5m", 5); ("15m", 15); ("30m", 30);
               ("1h", 60); ("4h", 240); ("1d", 1440)].

(** The fields of [time.localtime()] that the function reads. *)
Record struct_time : Type := {
  tm_min : Z;
  tm_sec : Z
}.

(** [timeframe_minutes[timeframe]]. *)
Definition lookup_timeframe (timeframe : string) : result Z :=
  match timeframe_minutes !! timeframe with
  | Some m => Ok m
  | None => Raise KeyError
  end.

(** [get_next_run_time(timeframe)] with the clock reading as an argument. *)
Definition get_next_run_time (timeframe : string) (current_time : struct_time)
    : result Z :=
  m ← lookup_timeframe timeframe;
  let next_run := (m - tm_min current_time mod m) * 60 - tm_sec current_time in
  Ok (next_run mod (m * 60)).

End Loader.

(** ** The request of the tenor engine *)

Module Engine.

(** [Series.unique()]: the distinct values, each at its first place. *)
Fixpoint unique (l : list string) : list string :=
  match l with
  | [] => []
  | x :: rest => x :: filter (fun y => y <> x) (unique rest)
  end.

(** [nearby_expiries.reindex(vols.index, method='ffill')] at one label of
    [vols.index]: the bracket of the last row whose date, as a midnight
    timestamp, is not after the label; none when every date is after it. *)
Definition reindex_ffill (nearby : list (Z * Z * Z)) (ts : Z) : option (Z * Z) :=
  (fun r => (r.1.2, r.2)) <$>
    last (filter (fun r => Tenor.midnight r.1.1 <= ts) nearby).

Section Request.

(** The helpers of [utils], and [strftime("%Y-%m-%d")] on a date. *)
Variable build_option_expiries : Z -> list Z.
Variable add_tenor : Z -> string -> Z.
Variable strftime : Z -> string.

(** The first loop over [tenor] in [get_historical_vol_for_delta_and_tenor]:
    the bracket table of each tenor, in order; the first failing tenor
    aborts the call. *)
Fixpoint nearby_for_tenors (range_start range_end : Z) (tenor : list string)
    : result (list (list (Z * Z * Z))) :=
  match tenor with
  | [] => Ok []
  | t :: rest =>
      nearby_expiries ←
        Bracket._get_historical_nearby_expiries_for_tenor
          build_option_expiries add_tenor range_start range_end t;
      others ← nearby_for_tenors range_start range_end rest;
      Ok (nearby_expiries :: others)
  end.

(** The two columns that one tenor adds to [unique_expiries]: the
    ['expiry1'] column, then the ['expiry2'] column, as date strings. *)
Definition expiry_columns (nearby_expiries : list (Z * Z * Z)) : list string :=
  (strftime <$> nearby_expiries.*1.*2) ++ (strftime <$> nearby_expiries.*2).

(** [list(unique_expiries.unique())] after the loop. *)
Definition unique_expiries (nearby : list (list (Z * Z * Z))) : list string :=
  unique (concat (expiry_columns <$> nearby)).

(** What [get_historical_vol_for_delta_and_tenor] computes before it sends
    its query: the bracket tables, then the three predicate texts that
    [get_historical_vol_for_delta_and_expiry] builds, in its order.  The
    three arguments are lists, a scalar having been wrapped. *)
Definition tenor_predicates (range_start range_end : Z)
    (delta : list Predicate.scalar) (tenor : list string)
    (field : list Predicate.scalar) : result (string * string * string) :=
  nearby ← nearby_for_tenors range_start range_end tenor;
  r_delta ← Predicate._write_influx_field (Predicate.List delta) "delta";
  r_expiry ← Predicate._write_influx_field
               (Predicate.List (Predicate.PyStr <$> unique_expiries nearby)) "expiry";
  r_field ← Predicate._write_influx_field (Predicate.List field) "_field";
  Ok (r_delta, r_expiry, r_field).

End Request.

End Engine.

(** ** Risk reversal *)

Module Reversal.

(** The value [x / y] of two [float64] cells.  A zero divisor gives an
    infinity, or [NaN] for a zero dividend; the signs of zeros and of
    infinities are not modelled, and this outcome is kept apart. *)
Inductive quotient : Type :=
| Quot (x : float)
| DivByZero.

Definition fdiv (x y : float) : quotient :=
  match x, y with
  | Num a, Num b => if decide (b = 0%Qc) then DivByZero else Quot (Num (a / b))
  | _, _ => Quot NaN
  end.

Definition fneg (x : float) : float :=
  match x with
  | Num a => Num (- a)
  | NaN => NaN
  end.

Definition qneg (q : quotient) : quotient :=
  match q with
  | Quot x => Quot (fneg x)
  | DivByZero => DivByZero
  end.

(** [a / b] on two series: the labels are aligned as for the other
    operators. *)
Definition series_div (a b : gmap Z float) : gmap Z quotient :=
  merge (fun x y =>
           match x, y with
           | Some u, Some v => Some (fdiv u v)
           | None, None => None
           | _, _ => Some (Quot NaN)
           end) a b.

(** [res['value'] = s] on a table that has its index already: [s] is
    reindexed to the labels of the table, a label that [s] lacks getting
    [NaN] and a label that the table lacks being dropped. *)
Definition assign_column (index_of : gmap Z float) (s : gmap Z quotient)
    : gmap Z quotient :=
  map_imap (fun k _ => Some (default (Quot NaN) (s !! k))) index_of.

(** The difference of the call and put series for one (d, f, t). *)
Definition difference (history : list Metric.obs) (d f t : string) : gmap Z float :=
  Metric.series_op fsub
    (Metric.select history t f (d +:+ "C"))
    (Metric.select history t f (d +:+ "P")).

(** [res['value']] for one (d, f, t) of the loops: the difference, divided
    by the ATM series when [normalize_by_ATM] is set. *)
Definition risk_reversal_value (history : list Metric.obs) (normalize_by_ATM : bool)
    (d f t : string) : gmap Z quotient :=
  let value := difference history d f t in
  if normalize_by_ATM then
    assign_column value (series_div value (Metric.select history t f "ATM"))
  else Quot <$> value.

(** A row of the result. *)
Record row : Type := {
  timestamp : Z;
  value : quotient;
  field : string;
  delta : string;
  tenor : string
}.

Definition label_le (x y : Z * quotient) : Prop := x.1 <= y.1.

#[global] Instance label_le_dec : RelDecision label_le :=
  fun x y => decide (x.1 <= y.1).

(** The rows of [res] for one (d, f, t), by ascending label. *)
Definition risk_reversal_rows (history : list Metric.obs) (normalize_by_ATM : bool)
    (d f t : string) : list row :=
  (fun kv => {| timestamp := kv.1; value := kv.2;
                field := f; delta := d; tenor := t |}) <$>
    merge_sort label_le
      (map_to_list (risk_reversal_value history normalize_by_ATM d f t)).

(** The three nested loops of
    [get_historical_risk_reversal_by_delta_and_tenor] over the tenor series
    [history]; the arguments are lists, a scalar having been wrapped, and
    [delta] holds the text [str(d)] of each requested delta. *)
Definition get_historical_risk_reversal_by_delta_and_tenor
    (history : list Metric.obs) (normalize_by_ATM : bool)
    (delta field tenor : list string) : list row :=
  d ← delta; f ← field; t ← tenor;
  risk_reversal_rows history normalize_by_ATM d f t.

End Reversal.

(** ** Query text *)

(** The equality test of a query filter on one value of a dimension. *)
Definition equality_test (arg_name : string) (a : Predicate.scalar) : string :=
  "r." +:+ arg_name +:+ " == " +:+ Predicate.quoted a.

(** ** Loader: fetching and collecting *)

Module Fetch.

(** The ['retry-after'] header of a response, as [int(...)] reads it: not
    sent, a number of seconds, or a text that [int] rejects. *)
Inductive header : Type :=
| Absent
| Seconds (n : Z)
| Malformed.

(** [int(response.headers.get('retry-after', '2'))]. *)
Definition wait_time (h : header) : result Z :=
  match h with
  | Absent => Ok 2
  | Seconds n => Ok n
  | Malformed => Raise ValueError
  end.

Section Fetch.

(** The order book of an instrument, as the API returns it. *)
Variable payload : Type.

(** The JSON object of a response: the code of its ['error'] member and its
    ['result'] member, each when present. *)
Record body : Type := {
  error : option Z;
  result : option payload
}.

(** What one round of the loop meets: [requests.get] raises, or a response
    arrives with its header and its JSON object, if its text is one. *)
Inductive event : Type :=
| RequestFailed
| Reply (retry_after : header) (json : option body).

(** How far the call got on the events so far: it returned, it raised, or
    it is about to send its next request with this many retries left. *)
Inductive outcome : Type :=
| Returned (r : option payload)
| Raised (e : exception)
| Waiting (retries : Z).

(** The [while retries > 0] loop of [fetch_option_data]: the outcome with
    the arguments of the calls of [time.sleep], in order.  A failed request
    returns [None]; a response that is not JSON and a header that cannot be
    slept on raise outside the [try]; a rate-limit error sleeps and uses a
    retry; a result is returned; any other response is asked for again. *)
Fixpoint loop (retries : Z) (events : list event) : outcome * list Z :=
  match events with
  | [] => if decide (0 < retries) then (Waiting retries, []) else (Returned None, [])
  | ev :: rest =>
      if decide (0 < retries) then
        match ev with
        | RequestFailed => (Returned None, [])
        | Reply _ None => (Raised ValueError, [])
        | Reply h (Some b) =>
            if decide (error b = Some 10028) then
              match wait_time h with
              | Raise e => (Raised e, [])
              | Ok w =>
                  if decide (w < 0) then (Raised ValueError, [])
                  else let r := loop (retries - 1) rest in (r.1, w :: r.2)
              end
            else
              match result b with
              | Some p => (Returned (Some p), [])
              | None => loop retries rest
              end
        end
      else (Returned None, [])
  end.

Definition fetch_option_data (events : list event) : outcome * list Z :=
  loop 5 events.

(** A response with the rate-limit error and a header that gives the
    wait [w]. *)
Definition rate_limited (ev : event) (w : Z) : Prop :=
  exists h b, ev = Reply h (Some b) /\ error b = Some 10028 /\
              wait_time h = Ok w /\ 0 <= w.

(** A response with neither the rate-limit error nor a result. *)
Definition unexpected (ev : event) : Prop :=
  exists h b, ev = Reply h (Some b) /\ error b <> Some 10028 /\ result b = None.

(** The instruments of one currency, [instruments_per_request] at a time:
    [[instruments[i:i+40] for i in range(0, len(instruments), 40)]]. *)
Definition instruments_per_request : nat := 40.

Definition instruments_lists {A : Type} (instruments : list A) : list (list A) :=
  (fun k => take instruments_per_request
              (drop (k * instruments_per_request) instruments)) <$>
    seq 0 ((length instruments + (instruments_per_request - 1))
             `div` instruments_per_request).

(** The loop over [instruments_lists] in [fetch_and_save_data]: [fetch]
    gives the order book of an instrument, or [None]; the order books of a
    list are appended to [options_data] when there is one at least. *)
Definition collect {A : Type} (fetch : A -> option payload) (instruments : list A)
    : list payload :=
  fold_left
    (fun options_data inst_list =>
       let result := omap fetch inst_list in
       if decide (0 < length result)%nat then options_data ++ result
       else options_data)
    (instruments_lists instruments) [].

(** The rows saved for the day: those of the day's file, when it exists,
    then the collected ones. *)
Definition saved_rows {A : Type} (existing : option (list payload))
    (fetch : A -> option payload) (instruments : list A) : list payload :=
  match existing with
  | Some rows => rows ++ collect fetch instruments
  | None => collect fetch instruments
  end.

End Fetch.

Arguments error {payload} b.
Arguments result {payload} b.
Arguments RequestFailed {payload}.
Arguments Reply {payload} retry_after json.
Arguments Returned {payload} r.
Arguments Raised {payload} e.
Arguments Waiting {payload} retries.
Arguments loop {payload} retries events.
Arguments fetch_option_data {payload} events.
Arguments rate_limited {payload} ev w.
Arguments unexpected {payload} ev.
Arguments collect {payload A} fetch instruments.
Arguments saved_rows {payload A} existing fetch instruments.

End Fetch.

(** * Properties *)

(** ** Bracket resolver *)

Section BracketFacts.
Import Bracket.

(** One round of the loop, as the source writes it. *)
Lemma walk_unfold l t e1 e2 idx :
  walk l t e1 e2 idx =
  if Z.ltb e2 t then
    match l !! idx with
    | None => Raise IndexError
    | Some a => match l !! S idx with
                | None => Raise IndexError
                | Some b => walk l t a b (S idx)
                end
    end
  else Ok (e1, e2).
Proof.
  funelim (walk l t e1 e2 idx);
    repeat match goal with
    | H : ?x = ?v |- context [?x] =>
        lazymatch v with
        | Some _ => rewrite H
        | None => rewrite H
        | true => rewrite H
        | false => rewrite H
        end
    end; reflexivity.
Qed.

(** When every entry is before the target the walk reads past the end. *)
Lemma walk_exhausted l t :
  Forall (fun e => e < t) l ->
  forall n idx e1 e2,
    (length l - idx)%nat = n -> e2 < t ->
    walk l t e1 e2 idx = Raise IndexError.
Proof.
  intros Hall n. induction n as [n IH] using lt_wf_ind.
  intros idx e1 e2 Hn He2. rewrite walk_unfold.
  apply Z.ltb_lt in He2 as ->.
  destruct (l !! idx) as [a|] eqn:Ha; [|done].
  destruct (l !! S idx) as [b|] eqn:Hb; [|done].
  apply lookup_lt_Some in Ha as Hlt.
  apply (IH (length l - S idx)%nat); [lia|done|].
  exact (Forall_lookup_1 (fun e => e < t) l _ _ Hall Hb).
Qed.

(** The walk raises nothing but the index error of a list. *)
Lemma walk_raise l t n :
  forall idx e1 e2 e,
    (length l - idx)%nat = n ->
    walk l t e1 e2 idx = Raise e -> e = IndexError.
Proof.
  induction n as [n IH] using lt_wf_ind.
  intros idx e1 e2 e Hn. rewrite walk_unfold.
  destruct (e2 <? t); [|done].
  destruct (l !! idx) as [a|] eqn:Ha; [|congruence].
  destruct (l !! S idx) as [b|] eqn:Hb; [|congruence].
  apply lookup_lt_Some in Ha as Hlt.
  apply (IH (length l - S idx)%nat); lia.
Qed.

(** The walk stops on the first entry from [S i] on that is not before
    the target, and returns it with the entry before it. *)
Lemma walk_first l t n :
  forall i e1 e2 j x,
    (j - i)%nat = n ->
    l !! i = Some e1 -> l !! S i = Some e2 ->
    (S i <= j)%nat -> l !! j = Some x -> t <= x ->
    exists k a b,
      walk l t e1 e2 (S i) = Ok (a, b) /\
      (i <= k)%nat /\ l !! k = Some a /\ l !! S k = Some b /\ t <= b.
Proof.
  induction n as [n IH] using lt_wf_ind.
  intros i e1 e2 j x Hn H1 H2 Hij Hj Hx. rewrite walk_unfold.
  destruct (Z.ltb_spec e2 t) as [Hlt|Hge].
  - rewrite H2.
    assert (S i <> j) by (intros E; subst j; simplify_eq; lia).
    assert (is_Some (l !! S (S i))) as [b Hb].
    { apply lookup_lt_is_Some. apply lookup_lt_Some in Hj. lia. }
    rewrite Hb.
    destruct (IH (j - S i)%nat ltac:(lia) (S i) e2 b j x)
      as (k & a' & b' & Hw & Hk & Ha & Hb' & Ht); try done; try lia.
    exists k, a', b'. repeat split; try done. lia.
  - exists i, e1, e2. repeat split; done.
Qed.

(** In a strictly ascending list a later entry is greater. *)
Lemma sorted_lookup_lt (l : list Z) :
  StronglySorted Z.lt l ->
  forall i j x y, (i < j)%nat -> l !! i = Some x -> l !! j = Some y -> x < y.
Proof.
  induction 1 as [|a l Hs IH Ha]; intros i j x y Hij Hi Hj; [done|].
  destruct j as [|j]; [lia|]. simpl in Hj.
  destruct i as [|i]; simpl in Hi.
  - simplify_eq. exact (Forall_lookup_1 (Z.lt x) l _ _ Ha Hj).
  - apply (IH i j); [lia|done|done].
Qed.

(** A day's resolution fails with the index error only. *)
Lemma resolve_day_raise l t e :
  resolve_day l t = Raise e -> e = IndexError.
Proof.
  unfold resolve_day, getitem.
  destruct (l !! 0%nat) as [a|]; simpl; [|congruence].
  destruct (l !! 1%nat) as [b|]; simpl; [|congruence].
  apply (walk_raise l t _ _ _ _ _ eq_refl).
Qed.

(** C1 (as the code has it): on a day whose calendar has fewer than two
    entries, or whose entries are all before the target date, the
    resolution of the day raises the list's own [IndexError]. *)
Theorem resolve_day_exhausted (day_expiries : list Z) (current_tenor : Z) :
  exhausted day_expiries current_tenor ->
  resolve_day day_expiries current_tenor = Raise IndexError.
Proof.
  unfold exhausted, resolve_day, getitem. intros [Hlen|Hall].
  - destruct day_expiries as [|a [|b l]]; simpl in *; try done; lia.
  - destruct (day_expiries !! 0%nat) as [a|] eqn:Ha; simpl; [|done].
    destruct (day_expiries !! 1%nat) as [b|] eqn:Hb; simpl; [|done].
    apply (walk_exhausted _ _ Hall _ _ _ _ eq_refl).
    exact (Forall_lookup_1 (fun e => e < current_tenor) _ _ _ Hall Hb).
Qed.

Lemma resolve_day_exhausted_witness :
  exhausted [10; 20; 30] 35 /\ resolve_day [10; 20; 30] 35 = Raise IndexError.
Proof.
  assert (H : exhausted [10; 20; 30] 35).
  { right. repeat constructor. }
  split; [exact H | exact (resolve_day_exhausted [10; 20; 30] 35 H)].
Defined.

(** C1 (as stated) fails: the calendar [10; 20] is exhausted for the target
    25, and the error raised is not [CalendarExhausted]. *)
Lemma resolve_day_not_CalendarExhausted :
  exhausted [10; 20] 25 /\
  resolve_day [10; 20] 25 <> Raise CalendarExhausted.
Proof.
  split; [right; repeat constructor | vm_compute; discriminate].
Qed.

(** C4: on a strictly ascending calendar of at least two entries with an
    entry on or after the target, the bracket is made of two consecutive
    entries, the first before the second, with no entry strictly between. *)
Theorem resolve_day_adjacent (day_expiries : list Z) (current_tenor : Z) :
  StronglySorted Z.lt day_expiries ->
  (2 <= length day_expiries)%nat ->
  Exists (fun e => current_tenor <= e) day_expiries ->
  exists expiry1 expiry2,
    resolve_day day_expiries current_tenor = Ok (expiry1, expiry2) /\
    expiry1 < expiry2 /\
    adjacent day_expiries expiry1 expiry2 /\
    Forall (fun x => ~ (expiry1 < x < expiry2)) day_expiries.
Proof.
  intros Hs Hlen Hex.
  destruct day_expiries as [|a [|b l]] eqn:El; simpl in Hlen; try lia.
  rewrite <- El in *.
  assert (H0 : day_expiries !! 0%nat = Some a) by (by subst).
  assert (H1 : day_expiries !! 1%nat = Some b) by (by subst).
  apply Exists_exists in Hex as (x & Hin & Hx).
  apply list_elem_of_lookup in Hin as [j Hj].
  assert (Hab : a < b) by (apply (sorted_lookup_lt _ Hs 0 1); [lia|done|done]).
  assert (exists j' x', (1 <= j')%nat /\ day_expiries !! j' = Some x' /\
                        current_tenor <= x') as (j' & x' & Hj1 & Hj' & Hx').
  { destruct j as [|j].
    - exists 1%nat, b. repeat split; [lia|done|]. simplify_eq. lia.
    - exists (S j), x. repeat split; [lia|done|done]. }
  destruct (walk_first day_expiries current_tenor _ 0%nat a b j' x' eq_refl
              H0 H1 Hj1 Hj' Hx') as (k & e1 & e2 & Hw & _ & Hk & HSk & _).
  exists e1, e2. unfold resolve_day, getitem. rewrite H0, H1. simpl.
  split; [done|].
  assert (He : e1 < e2) by (apply (sorted_lookup_lt _ Hs k (S k)); [lia|done|done]).
  split; [done|]. split; [by exists k|].
  apply Forall_lookup_2. intros m y Hm [Hy1 Hy2].
  destruct (decide (m <= k)%nat) as [Hle|Hgt].
  - destruct (decide (m = k)) as [->|Hne]; [simplify_eq; lia|].
    pose proof (sorted_lookup_lt _ Hs m k y e1 ltac:(lia) Hm Hk). lia.
  - destruct (decide (m = S k)) as [->|Hne]; [simplify_eq; lia|].
    pose proof (sorted_lookup_lt _ Hs (S k) m e2 y ltac:(lia) HSk Hm). lia.
Qed.

Lemma resolve_day_adjacent_witness :
  exists expiry1 expiry2,
    resolve_day [10; 20; 30; 40] 25 = Ok (expiry1, expiry2) /\
    expiry1 < expiry2 /\
    adjacent [10; 20; 30; 40] expiry1 expiry2 /\
    Forall (fun x => ~ (expiry1 < x < expiry2)) [10; 20; 30; 40].
Proof.
  apply (resolve_day_adjacent [10; 20; 30; 40] 25).
  - repeat constructor.
  - simpl. lia.
  - right. right. left. lia.
Defined.

(** C7: when the target is before the first entry of an ascending calendar
    of at least two entries, the bracket is the first two entries. *)
Theorem resolve_day_before_first (a b : Z) (rest : list Z) (current_tenor : Z) :
  Sorted Z.le (a :: b :: rest) ->
  current_tenor < a ->
  resolve_day (a :: b :: rest) current_tenor = Ok (a, b).
Proof.
  intros Hs Ht. unfold resolve_day, getitem. simpl.
  rewrite walk_unfold.
  apply Sorted_inv in Hs as [_ Hab]. apply HdRel_inv in Hab.
  destruct (Z.ltb_spec b current_tenor); [lia|done].
Qed.

Lemma resolve_day_before_first_witness :
  resolve_day [10; 20; 30] 5 = Ok (10, 20).
Proof.
  apply (resolve_day_before_first 10 20 [30] 5).
  - repeat constructor; lia.
  - lia.
Defined.

(** *** The loop over the days of the range *)

(** The rows of a successful call: one per day of the range, holding the
    bracket of that day. *)
Lemma resolve_days_rows (cal : Z -> list Z) (add : Z -> string -> Z)
    (tenor : string) (n : nat) :
  forall d rows,
    resolve_days cal add n d tenor = Ok rows ->
    forall x e1 e2,
      (x, e1, e2) ∈ rows <->
      d <= x < d + Z.of_nat n /\
      resolve_day (cal x) (add x tenor) = Ok (e1, e2).
Proof.
  induction n as [|n IH]; intros d rows H x e1 e2; simpl in H.
  - injection H as <-. rewrite elem_of_nil. lia.
  - destruct (resolve_day (cal d) (add d tenor)) as [[b1 b2]|] eqn:Hd;
      simpl in H; [|done].
    destruct (resolve_days cal add n (d + 1) tenor) as [rest|] eqn:Hr;
      simpl in H; [|done].
    injection H as <-. rewrite elem_of_cons, (IH _ _ Hr). simpl. split.
    + intros [[= -> -> ->]|[Hx He]]; [split; [lia|done]|split; [lia|done]].
    + intros [Hx He]. destruct (decide (x = d)) as [->|Hne].
      * left. congruence.
      * right. split; [lia|done].
Qed.

(** A call fails exactly when some day of the range fails, and then with
    the index error. *)
Lemma resolve_days_raise (cal : Z -> list Z) (add : Z -> string -> Z)
    (tenor : string) (n : nat) :
  forall d,
    (exists x, d <= x < d + Z.of_nat n /\
               exists e, resolve_day (cal x) (add x tenor) = Raise e) <->
    resolve_days cal add n d tenor = Raise IndexError.
Proof.
  induction n as [|n IH]; intros d; simpl.
  - split; [intros (x & Hx & _); lia|done].
  - destruct (resolve_day (cal d) (add d tenor)) as [[b1 b2]|e0] eqn:Hd; simpl.
    + destruct (resolve_days cal add n (d + 1) tenor) as [rest|e1] eqn:Hr; simpl.
      * split; [|done]. intros (x & Hx & e & He).
        assert (Hf : resolve_days cal add n (d + 1) tenor = Raise IndexError).
        { apply IH. exists x. split; [|by exists e].
          destruct (decide (x = d)) as [->|]; [congruence|lia]. }
        congruence.
      * split.
        -- intros (x & Hx & e & He).
           assert (Hf : resolve_days cal add n (d + 1) tenor = Raise IndexError).
           { apply IH. exists x. split; [|by exists e].
             destruct (decide (x = d)) as [->|]; [congruence|lia]. }
           congruence.
        -- intros [= ->]. apply IH in Hr as (x & Hx & He).
           exists x. split; [lia|done].
    + apply resolve_day_raise in Hd as Hi. subst e0. split; [done|].
      intros _. exists d. split; [lia|by exists IndexError].
Qed.

(** The same two facts for the call on a range of dates. *)
Lemma nearby_expiries_rows (cal : Z -> list Z) (add : Z -> string -> Z)
    (range_start range_end : Z) (tenor : string) (rows : list (Z * Z * Z)) :
  _get_historical_nearby_expiries_for_tenor cal add range_start range_end tenor
    = Ok rows ->
  forall x e1 e2,
    (x, e1, e2) ∈ rows <->
    range_start <= x <= range_end /\
    resolve_day (cal x) (add x tenor) = Ok (e1, e2).
Proof.
  unfold _get_historical_nearby_expiries_for_tenor. intros H x e1 e2.
  rewrite (resolve_days_rows _ _ _ _ _ _ H).
  split; intros [Hx He]; (split; [lia|done]).
Qed.

(** X2: a call on a range of dates fails exactly when some day of the
    range cannot be resolved, and then with [IndexError]. *)
Lemma nearby_expiries_raise (cal : Z -> list Z) (add : Z -> string -> Z)
    (range_start range_end : Z) (tenor : string) :
  (exists x, range_start <= x <= range_end /\
             exists e, resolve_day (cal x) (add x tenor) = Raise e) <->
  _get_historical_nearby_expiries_for_tenor cal add range_start range_end tenor
    = Raise IndexError.
Proof.
  unfold _get_historical_nearby_expiries_for_tenor.
  rewrite <- resolve_days_raise. split; intros (x & Hx & He); exists x; (split; [lia|done]).
Qed.

Example nearby_expiries_example :
  _get_historical_nearby_expiries_for_tenor
    (fun _ => [10; 17; 24; 31]) (fun d _ => d + 7) 9 11 "7D"
  = Ok [(9, 10, 17); (10, 10, 17); (11, 17, 24)].
Proof. reflexivity. Qed.

End BracketFacts.

(** ** Tenor interpolation *)

Section TenorFacts.
Import Tenor.
Local Open Scope Qc_scope.

(** The embedding of the integers into the rationals is a ring morphism. *)
Lemma Z2Qc_add (a b : Z) : Z2Qc (a + b) = Z2Qc a + Z2Qc b.
Proof.
  unfold Z2Qc. apply Qc_is_canon. simpl.
  rewrite !Qred_correct. rewrite inject_Z_plus. reflexivity.
Qed.

Lemma Z2Qc_sub (a b : Z) : Z2Qc (a - b) = Z2Qc a - Z2Qc b.
Proof.
  unfold Z2Qc. apply Qc_is_canon. simpl.
  rewrite !Qred_correct. unfold Z.sub. rewrite inject_Z_plus, inject_Z_opp. reflexivity.
Qed.

Lemma Z2Qc_eq_0 (a : Z) : Z2Qc a = 0 -> a = 0%Z.
Proof.
  unfold Z2Qc. intros H. apply (f_equal this) in H. simpl in H.
  assert (Hq : (Qred (inject_Z a) == 0)%Q) by (rewrite H; reflexivity).
  rewrite Qred_correct in Hq. unfold Qeq in Hq. simpl in Hq. lia.
Qed.

Lemma weights_sum (d1 d2 : Z) :
  (d1 + d2 <> 0)%Z ->
  (1 - Z2Qc d1 / Z2Qc (d1 + d2)) + (1 - Z2Qc d2 / Z2Qc (d1 + d2)) = 1.
Proof.
  intros H. rewrite Z2Qc_add.
  assert (Z2Qc d1 + Z2Qc d2 <> 0).
  { rewrite <- Z2Qc_add. intros E. by apply Z2Qc_eq_0 in E. }
  field. done.
Qed.

(** The day difference between a midnight and a target timestamp. *)
Lemma days_midnight_sub (e rolling : Z) :
  days (midnight e - rolling) = (e - target_day rolling)%Z.
Proof.
  unfold days, midnight, target_day.
  replace (86400 * e - rolling)%Z with (e * 86400 + - rolling)%Z by lia.
  rewrite Z.div_add_l by lia. lia.
Qed.

Lemma target_day_midnight (d : Z) : target_day (midnight d) = d.
Proof.
  unfold target_day, midnight.
  replace (- (86400 * d))%Z with ((- d) * 86400)%Z by lia.
  rewrite Z.div_mul by lia. lia.
Qed.

Lemma target_day_bounds (rolling : Z) :
  (86400 * (target_day rolling - 1) < rolling <= 86400 * target_day rolling)%Z.
Proof.
  unfold target_day.
  pose proof (Z.div_mod (- rolling) 86400 ltac:(lia)).
  pose proof (Z.mod_pos_bound (- rolling) 86400 ltac:(lia)). lia.
Qed.

(** The total of the two differences vanishes only when both expiries are
    the day of the target. *)
Lemma diff_exp_zero (e1 e2 rolling : Z) :
  diff_exp (tenor_row e1 e2 rolling) = 0%Z <->
  e1 = target_day rolling /\ e2 = target_day rolling.
Proof.
  simpl. unfold diff_to_exp. rewrite !days_midnight_sub. lia.
Qed.

(** The value of a row whose total is not zero. *)
Lemma interpolate_row_value (e1 e2 rolling : Z) (vols_row : gmap Z float) (v1 v2 : float) :
  diff_exp (tenor_row e1 e2 rolling) <> 0%Z ->
  vols_row !! e1 = Some v1 -> vols_row !! e2 = Some v2 ->
  let r := tenor_row e1 e2 rolling in
  interpolate_row r vols_row =
  Ok (fadd (fmul (Num (1 - Z2Qc (diff_to_exp1 r) / Z2Qc (diff_exp r))) v1)
           (fmul (Num (1 - Z2Qc (diff_to_exp2 r) / Z2Qc (diff_exp r))) v2)).
Proof.
  intros Hne H1 H2 r.
  unfold interpolate_row, interp_vol, weight, truediv, loc.
  fold r in Hne.
  destruct (decide (diff_exp r = 0%Z)) as [E|_]; [done|].
  subst r. simpl. rewrite H1, H2. reflexivity.
Qed.

(** The two factors of a row add up to one whenever the total is not zero. *)
Lemma weights_total (d1 d2 : Z) :
  (d1 + d2 <> 0)%Z ->
  exists w1 w2,
    weight d1 (d1 + d2) = Ok w1 /\ weight d2 (d1 + d2) = Ok w2 /\
    w1 = 1 - Z2Qc d1 / Z2Qc (d1 + d2) /\
    w2 = 1 - Z2Qc d2 / Z2Qc (d1 + d2) /\
    w1 + w2 = 1.
Proof.
  intros H. unfold weight, truediv.
  destruct (decide (d1 + d2 = 0)%Z) as [E|_]; [done|].
  eexists _, _. repeat split. by apply weights_sum.
Qed.



(** C2 (as the code has it): when the two expiries coincide and the total
    is zero, the division is not guarded and the row raises
    [ZeroDivisionError]. *)
Theorem coincident_bracket_unguarded (e1 e2 rolling : Z) (vols_row : gmap Z float) :
  e1 = e2 ->
  diff_exp (tenor_row e1 e2 rolling) = 0%Z ->
  interpolate_row (tenor_row e1 e2 rolling) vols_row = Raise ZeroDivisionError.
Proof.
  intros _ H. unfold interpolate_row, interp_vol, weight, truediv.
  rewrite H. reflexivity.
Qed.

(** X11: the loop over the rows fails exactly when some row fails. *)
Lemma interpolate_rows_raise (rows : list (Z * row * gmap Z float)) :
  Exists (fun x => exists e, interpolate_row x.1.2 x.2 = Raise e) rows <->
  exists e, interpolate_rows rows = Raise e.
Proof.
  induction rows as [|[[idx r] vols_row] rest IH]; simpl.
  - rewrite Exists_nil. split; [done|]. by intros [e He].
  - rewrite Exists_cons, IH. simpl.
    destruct (interpolate_row r vols_row) as [v|e0]; simpl.
    + destruct (interpolate_rows rest) as [vs|e1]; simpl.
      * split; [intros [[e He]|[e He]]; done|intros [e He]; done].
      * split; [by exists e1|intros _; right; by exists e1].
    + split; [by exists e0|intros _; left; by exists e0].
Qed.




Lemma coincident_bracket_unguarded_witness :
  interpolate_row (tenor_row 10 10 864000) {[ 10%Z := Num 1 ]}
  = Raise ZeroDivisionError.
Proof.
  apply (coincident_bracket_unguarded 10 10 864000 {[ 10%Z := Num 1 ]}).
  - reflexivity.
  - reflexivity.
Defined.

(** C2 (as stated) fails: with both expiries and the target on day 10 the
    total is zero, and the row raises the division's own error, not
    [DegenerateBracket]; with both expiries on day 10 and the target on
    day 8 no error is raised at all. *)
Lemma coincident_bracket_not_reported :
  let vols_row : gmap Z float := {[ 10%Z := Num 1 ]} in
  diff_exp (tenor_row 10 10 (midnight 10)) = 0%Z /\
  interpolate_row (tenor_row 10 10 (midnight 10)) vols_row
    <> Raise DegenerateBracket /\
  interpolate_row (tenor_row 10 10 (midnight 8)) vols_row = Ok (Num 1).
Proof.
  simpl. split; [reflexivity|]. split; [vm_compute; discriminate|].
  vm_compute. do 2 f_equal. apply Qc_is_canon. reflexivity.
Qed.

End TenorFacts.

(** ** Vol surface *)

Section SurfaceFacts.
Import Surface.

(** Sorting and removing repetitions keep the labels that occur. *)
Lemma elem_of_labels (x : string) (l : list string) : x ∈ labels l <-> x ∈ l.
Proof.
  unfold labels. rewrite merge_sort_Permutation. apply elem_of_remove_dups.
Qed.

(** A selection by a list of labels has these labels as its columns. *)
Lemma getitem_columns_ok (df df' : DataFrame) (key : list string) :
  getitem_columns df key = Ok df' -> columns df' = key.
Proof.
  unfold getitem_columns. case_decide; [|done]. by intros [= <-].
Qed.

(** Whenever a surface is returned its columns are the enumeration. *)
Lemma vol_surface_ok_columns (data : list (string * string * float)) (df : DataFrame) :
  get_vol_surface_for_obs_time data = Ok df -> columns df = deltas.
Proof.
  unfold get_vol_surface_for_obs_time.
  destruct (pivot data) as [p|e]; simpl; [|done].
  apply getitem_columns_ok.
Qed.

(** C3: on rows without a repeated (expiry, delta) pair in which each of
    the 19 buckets occurs, the surface is returned and its columns are the
    enumeration, in its order. *)
Theorem vol_surface_columns (data : list (string * string * float)) :
  NoDup (data.*1) ->
  Forall (fun d => d ∈ data.*1.*2) deltas ->
  exists df,
    get_vol_surface_for_obs_time data = Ok df /\
    columns df =
      ["5P"; "10P"; "15P"; "20P"; "25P"; "30P"; "35P"; "40P"; "45P"; "ATM";
       "45C"; "40C"; "35C"; "30C"; "25C"; "20C"; "15C"; "10C"; "5C"].
Proof.
  intros Hnd Hall.
  unfold get_vol_surface_for_obs_time, pivot.
  destruct (decide (NoDup (data.*1))) as [_|]; [|done]. simpl.
  unfold getitem_columns. simpl.
  case_decide as Hk.
  - eexists. split; [reflexivity|reflexivity].
  - exfalso. apply Hk. eapply Forall_impl; [exact Hall|].
    intros d Hd. by apply elem_of_labels.
Qed.

Lemma vol_surface_columns_witness :
  exists df,
    get_vol_surface_for_obs_time
      (map (fun d => ("2023-09-29", d, Num 1)) deltas) = Ok df /\
    columns df =
      ["5P"; "10P"; "15P"; "20P"; "25P"; "30P"; "35P"; "40P"; "45P"; "ATM";
       "45C"; "40C"; "35C"; "30C"; "25C"; "20C"; "15C"; "10C"; "5C"].
Proof.
  apply (vol_surface_columns (map (fun d => ("2023-09-29", d, Num 1)) deltas)).
  - refine (bool_decide_unpack _ _). vm_compute. exact I.
  - refine (bool_decide_unpack _ _). vm_compute. exact I.
Defined.

(** A bucket that does not occur, or a repeated pair, makes the call fail. *)
Example vol_surface_missing_bucket :
  get_vol_surface_for_obs_time [("2023-09-29", "ATM", Num 1)] = Raise KeyError.
Proof. vm_compute. reflexivity. Qed.

Example vol_surface_repeated_pair :
  get_vol_surface_for_obs_time
    [("2023-09-29", "ATM", Num 1); ("2023-09-29", "ATM", Num 2)]
  = Raise ValueError.
Proof. vm_compute. reflexivity. Qed.

End SurfaceFacts.

(** ** Butterfly *)

Section MetricFacts.
Import Metric.

(** An aligned operation at a label that both series have. *)
Lemma series_op_lookup op (a b : gmap Z float) (ts : Z) (u v : float) :
  a !! ts = Some u -> b !! ts = Some v ->
  series_op op a b !! ts = Some (op u v).
Proof.
  intros Ha Hb. unfold series_op. rewrite lookup_merge, Ha, Hb. reflexivity.
Qed.

Lemma series_scale_lookup k (a : gmap Z float) (ts : Z) (u : float) :
  a !! ts = Some u ->
  series_scale k a !! ts = Some (fmul (Num (Z2Qc k)) u).
Proof.
  intros Ha. unfold series_scale. rewrite lookup_fmap, Ha. reflexivity.
Qed.

(** The labels of a selection are distinct. *)
Lemma select_labels_NoDup (history : list obs) (t f d : string) :
  unique_index history ->
  NoDup (timestamp <$>
           filter (fun r => tenor r = t ∧ field r = f ∧ delta r = d) history).
Proof.
  unfold unique_index.
  induction history as [|r l IH]; intros Hu; [constructor|].
  rewrite fmap_cons in Hu. apply NoDup_cons in Hu as [Hr Hl].
  rewrite filter_cons. case_decide as Hp; [|by apply IH].
  rewrite fmap_cons. apply NoDup_cons. split; [|by apply IH].
  intros Hin. apply Hr.
  apply list_elem_of_fmap in Hin as (r' & E & Hr').
  apply list_elem_of_filter in Hr' as [(Et & Ef & Ed) Hr'].
  destruct Hp as (Et' & Ef' & Ed').
  apply list_elem_of_fmap. exists r'. split; [|done]. congruence.
Qed.

(** With distinct labels a row of [history] is found in its selection. *)
Lemma select_lookup (history : list obs) (o : obs) :
  unique_index history -> o ∈ history ->
  select history (tenor o) (field o) (delta o) !! timestamp o = Some (value o).
Proof.
  intros Hu Ho. unfold select.
  apply elem_of_list_to_map_1.
  - rewrite <- list_fmap_compose. by apply select_labels_NoDup.
  - apply list_elem_of_fmap. exists o. split; [done|].
    apply list_elem_of_filter. done.
Qed.

(** The rows of the result are the entries of the value series of the
    requested triples. *)
Lemma butterfly_rows_elem (history : list obs) (d f t : string) (r : obs) :
  r ∈ butterfly_rows history d f t <->
  butterfly_value history d f t !! timestamp r = Some (value r) /\
  field r = f /\ delta r = d /\ tenor r = t.
Proof.
  unfold butterfly_rows. rewrite list_elem_of_fmap. split.
  - intros ([ts v] & -> & Hin). simpl.
    rewrite merge_sort_Permutation in Hin.
    apply elem_of_map_to_list in Hin. done.
  - intros (Hv & <- & <- & <-). exists (timestamp r, value r). split.
    + by destruct r.
    + rewrite merge_sort_Permutation. by apply elem_of_map_to_list.
Qed.

Lemma butterfly_elem (history : list obs) (delta field tenor : list string) (r : obs) :
  r ∈ get_historical_butterfly_by_delta_and_tenor history delta field tenor <->
  Metric.delta r ∈ delta /\ Metric.field r ∈ field /\ Metric.tenor r ∈ tenor /\
  butterfly_value history (Metric.delta r) (Metric.field r) (Metric.tenor r)
    !! timestamp r = Some (value r).
Proof.
  unfold get_historical_butterfly_by_delta_and_tenor.
  rewrite list_elem_of_bind. split.
  - intros (d & Hr & Hd). apply list_elem_of_bind in Hr as (f & Hr & Hf).
    apply list_elem_of_bind in Hr as (t & Hr & Ht).
    apply butterfly_rows_elem in Hr as (Hv & <- & <- & <-). done.
  - intros (Hd & Hf & Ht & Hv). exists (Metric.delta r). split; [|done].
    apply list_elem_of_bind. exists (Metric.field r). split; [|done].
    apply list_elem_of_bind. exists (Metric.tenor r). split; [|done].
    by apply butterfly_rows_elem.
Qed.

(** C8: for a requested delta, field and tenor and a label at which the
    call, put and ATM tenor series have the values [c], [p] and [a], the
    result has a row with the value [c + p - 2 * a], no row of this triple
    and label has another value, and the value is zero when the three are
    the same number. *)
Theorem butterfly_formula (history : list obs) (delta field tenor : list string)
    (d f t : string) (ts : Z) (c p a : float) :
  unique_index history ->
  d ∈ delta -> f ∈ field -> t ∈ tenor ->
  {| timestamp := ts; value := c; field := f; delta := d +:+ "C"; tenor := t |}
    ∈ history ->
  {| timestamp := ts; value := p; field := f; delta := d +:+ "P"; tenor := t |}
    ∈ history ->
  {| timestamp := ts; value := a; field := f; delta := "ATM"; tenor := t |}
    ∈ history ->
  let bf := get_historical_butterfly_by_delta_and_tenor history delta field tenor in
  let row v := {| timestamp := ts; value := v; field := f; delta := d; tenor := t |} in
  row (fsub (fadd c p) (fmul (Num (Z2Qc 2)) a)) ∈ bf /\
  (forall v, row v ∈ bf -> v = fsub (fadd c p) (fmul (Num (Z2Qc 2)) a)) /\
  (forall x y z, c = Num x -> p = Num y -> a = Num z ->
     row (Num (x + y - 2 * z)%Qc) ∈ bf) /\
  (forall x, c = Num x -> p = Num x -> a = Num x -> row (Num 0%Qc) ∈ bf).
Proof.
  intros Hu Hd Hf Ht Hc Hp Ha bf row.
  apply (select_lookup _ _ Hu) in Hc, Hp, Ha. simpl in Hc, Hp, Ha.
  assert (Hv : butterfly_value history d f t !! ts
               = Some (fsub (fadd c p) (fmul (Num (Z2Qc 2)) a))).
  { unfold butterfly_value.
    apply series_op_lookup; [by apply series_op_lookup|by apply series_scale_lookup]. }
  assert (H1 : row (fsub (fadd c p) (fmul (Num (Z2Qc 2)) a)) ∈ bf).
  { apply butterfly_elem. simpl. done. }
  assert (E2 : Z2Qc 2 = 2%Qc) by (apply Qc_is_canon; reflexivity).
  split; [done|]. split; [|split].
  - intros v Hin. apply butterfly_elem in Hin as (_ & _ & _ & Hv').
    simpl in Hv'. congruence.
  - intros x y z -> -> ->. simpl in H1. by rewrite E2 in H1.
  - intros x -> -> ->. simpl in H1. rewrite E2 in H1.
    replace (x + x - 2 * x)%Qc with 0%Qc in H1 by ring. done.
Qed.

Lemma butterfly_formula_witness :
  let history :=
    [ {| timestamp := 100; value := Num 2; field := "mid_iv"; delta := "15C"; tenor := "7D" |};
      {| timestamp := 100; value := Num 1; field := "mid_iv"; delta := "15P"; tenor := "7D" |};
      {| timestamp := 100; value := Num 1; field := "mid_iv"; delta := "ATM"; tenor := "7D" |} ] in
  let bf := get_historical_butterfly_by_delta_and_tenor history ["15"] ["mid_iv"] ["7D"] in
  let row v := {| timestamp := 100; value := v; field := "mid_iv"; delta := "15"; tenor := "7D" |} in
  row (fsub (fadd (Num 2) (Num 1)) (fmul (Num (Z2Qc 2)) (Num 1))) ∈ bf /\
  (forall v, row v ∈ bf -> v = fsub (fadd (Num 2) (Num 1)) (fmul (Num (Z2Qc 2)) (Num 1))) /\
  (forall x y z, Num 2 = Num x -> Num 1 = Num y -> Num 1 = Num z ->
     row (Num (x + y - 2 * z)%Qc) ∈ bf) /\
  (forall x, Num 2 = Num x -> Num 1 = Num x -> Num 1 = Num x -> row (Num 0%Qc) ∈ bf).
Proof.
  apply (butterfly_formula
           [ {| timestamp := 100; value := Num 2; field := "mid_iv"; delta := "15C"; tenor := "7D" |};
             {| timestamp := 100; value := Num 1; field := "mid_iv"; delta := "15P"; tenor := "7D" |};
             {| timestamp := 100; value := Num 1; field := "mid_iv"; delta := "ATM"; tenor := "7D" |} ]
           ["15"] ["mid_iv"] ["7D"] "15" "mid_iv" "7D" 100 (Num 2) (Num 1) (Num 1)).
  - refine (bool_decide_unpack _ _). vm_compute. exact I.
  - repeat constructor.
  - repeat constructor.
  - repeat constructor.
  - repeat constructor.
  - repeat constructor.
  - repeat constructor.
Defined.

(** The butterfly of the rows above, computed: 2 + 1 - 2 * 1. *)
Example butterfly_example :
  value <$> get_historical_butterfly_by_delta_and_tenor
    [ {| timestamp := 100; value := Num 2; field := "mid_iv"; delta := "15C"; tenor := "7D" |};
      {| timestamp := 100; value := Num 1; field := "mid_iv"; delta := "15P"; tenor := "7D" |};
      {| timestamp := 100; value := Num 1; field := "mid_iv"; delta := "ATM"; tenor := "7D" |} ]
    ["15"] ["mid_iv"] ["7D"]
  = [Num 1].
Proof. vm_compute. repeat f_equal; apply Qc_is_canon; reflexivity. Qed.

End MetricFacts.

(** ** Filter predicate builder *)

Section PredicateFacts.
Import Predicate.

(** C9: a list of one scalar gives the predicate text of the scalar. *)
Theorem write_influx_field_singleton (arg_name : string) (v : scalar) :
  _write_influx_field (List [v]) arg_name = _write_influx_field (Scalar v) arg_name.
Proof. reflexivity. Qed.

(** The text for a scalar does not use the dimension name; the text for a
    longer list does, and an empty list raises. *)
Lemma write_influx_field_scalar (arg_name : string) (v : scalar) :
  _write_influx_field (Scalar v) arg_name = Ok (quoted v).
Proof. reflexivity. Qed.

Lemma write_influx_field_empty (arg_name : string) :
  _write_influx_field (List []) arg_name = Raise IndexError.
Proof. reflexivity. Qed.

Example write_influx_field_two :
  _write_influx_field (List [PyStr "ATM"; PyInt 15]) "delta"
  = Ok (quoted (PyStr "ATM") +:+ " or r.delta == " +:+ quoted (PyInt 15)).
Proof. reflexivity. Qed.

End PredicateFacts.

(** ** Loader scheduling *)

Section LoaderFacts.
Import Loader.

(** The value returned for a key of the table. *)
Lemma get_next_run_time_lookup (timeframe : string) (m : Z) (current_time : struct_time) :
  timeframe_minutes !! timeframe = Some m ->
  get_next_run_time timeframe current_time =
  Ok (((m - tm_min current_time mod m) * 60 - tm_sec current_time) mod (m * 60)).
Proof.
  intros H. unfold get_next_run_time, lookup_timeframe. rewrite H. reflexivity.
Qed.

(** C10: for each of the six timeframe keys and any clock reading, the
    wait is a number of seconds from 0 up to, and not including, the length
    of the timeframe in seconds. *)
Theorem get_next_run_time_bounds (timeframe : string) (current_time : struct_time) :
  timeframe ∈ ["5m"; "15m"; "30m"; "1h"; "4h"; "1d"] ->
  exists m r,
    timeframe_minutes !! timeframe = Some m /\
    get_next_run_time timeframe current_time = Ok r /\
    0 <= r < m * 60.
Proof.
  intros H.
  repeat (apply elem_of_cons in H as [->|H]);
    try (by apply elem_of_nil in H).
  all: match goal with
       | |- exists m r, timeframe_minutes !! ?k = _ /\ _ =>
           let v := eval vm_compute in (timeframe_minutes !! k) in
           lazymatch v with
           | Some ?m =>
               assert (Hk : timeframe_minutes !! k = Some m) by (vm_compute; reflexivity);
               exists m; eexists; split; [exact Hk|];
               split; [exact (get_next_run_time_lookup k m current_time Hk)|];
               apply Z.mod_pos_bound; lia
           end
       end.
Qed.

Lemma get_next_run_time_bounds_witness :
  exists m r,
    timeframe_minutes !! "15m" = Some m /\
    get_next_run_time "15m" {| tm_min := 47; tm_sec := 61 |} = Ok r /\
    0 <= r < m * 60.
Proof.
  apply (get_next_run_time_bounds "15m" {| tm_min := 47; tm_sec := 61 |}).
  repeat constructor.
Defined.

(** The six keys are all the keys of the table; any other key raises. *)
Lemma timeframe_minutes_keys (timeframe : string) :
  timeframe ∈ ["5m"; "15m"; "30m"; "1h"; "4h"; "1d"] <->
  is_Some (timeframe_minutes !! timeframe).
Proof.
  rewrite <- elem_of_dom. unfold timeframe_minutes.
  rewrite dom_list_to_map_L. simpl. set_solver.
Qed.

Example get_next_run_time_on_the_mark :
  get_next_run_time "5m" {| tm_min := 10; tm_sec := 0 |} = Ok 0.
Proof. reflexivity. Qed.

Example get_next_run_time_unknown_key :
  get_next_run_time "2h" {| tm_min := 10; tm_sec := 0 |} = Raise KeyError.
Proof. reflexivity. Qed.

End LoaderFacts.

(** ** More on the bracket resolver *)

Section BracketMore.

(** One round of the loop, under a name of its own. *)
Lemma walk_round l t e1 e2 idx :
  Bracket.walk l t e1 e2 idx =
  if Z.ltb e2 t then
    match l !! idx with
    | None => Raise IndexError
    | Some a => match l !! S idx with
                | None => Raise IndexError
                | Some b => Bracket.walk l t a b (S idx)
                end
    end
  else Ok (e1, e2).
Proof. apply walk_unfold. Qed.

Import Bracket.

(** The walk returns the entry it stopped on, which is not before the
    target, after entries that all are. *)
Lemma walk_ok l t n :
  forall i e1 e2 a b,
    (length l - i)%nat = n ->
    l !! i = Some e1 -> l !! S i = Some e2 ->
    walk l t e1 e2 (S i) = Ok (a, b) ->
    exists k,
      (i <= k)%nat /\ l !! k = Some a /\ l !! S k = Some b /\ t <= b /\
      forall m x, (S i <= m <= k)%nat -> l !! m = Some x -> x < t.
Proof.
  induction n as [n IH] using lt_wf_ind.
  intros i e1 e2 a b Hn H1 H2. rewrite walk_round.
  destruct (Z.ltb_spec e2 t) as [Hlt|Hge].
  - rewrite H2. destruct (l !! S (S i)) as [c|] eqn:Hc; [|done].
    intros Hw. apply lookup_lt_Some in H1 as Hi.
    destruct (IH (length l - S i)%nat ltac:(lia) (S i) e2 c a b eq_refl H2 Hc Hw)
      as (k & Hk & Ha & Hb & Ht & Hall).
    exists k. repeat split; try done; [lia|].
    intros m x Hm Hx. destruct (decide (m = S i)) as [->|Hne].
    + simplify_eq. done.
    + apply (Hall m); [lia|done].
  - intros [= <- <-]. exists i. repeat split; try done. intros m x Hm. lia.
Qed.

(** A day resolves exactly when an entry other than the first one is on or
    after the target. *)
Lemma resolve_day_ok_iff_aux (day_expiries : list Z) (current_tenor : Z) :
  (exists b, resolve_day day_expiries current_tenor = Ok b) <->
  (exists j x, (1 <= j)%nat /\ day_expiries !! j = Some x /\ current_tenor <= x).
Proof.
  unfold resolve_day, getitem. split.
  - intros [[a b] H].
    destruct (day_expiries !! 0%nat) as [e1|] eqn:H0; simpl in H; [|done].
    destruct (day_expiries !! 1%nat) as [e2|] eqn:H1; simpl in H; [|done].
    destruct (walk_ok _ _ _ 0%nat _ _ _ _ eq_refl H0 H1 H)
      as (k & _ & _ & Hb & Ht & _).
    exists (S k), b. split; [lia|done].
  - intros (j & x & Hj & Hx & Ht).
    assert (is_Some (day_expiries !! 0%nat)) as [e1 H0].
    { apply lookup_lt_is_Some. apply lookup_lt_Some in Hx. lia. }
    assert (is_Some (day_expiries !! 1%nat)) as [e2 H1].
    { apply lookup_lt_is_Some. apply lookup_lt_Some in Hx. lia. }
    rewrite H0, H1. simpl.
    destruct (walk_first day_expiries current_tenor _ 0%nat e1 e2 j x eq_refl
                H0 H1 Hj Hx Ht) as (k & a & b & Hw & _).
    by exists (a, b).
Qed.

(** X3: a day resolves exactly when an entry other than the first one is
    on or after the target; the first entry plays no part. *)
Theorem resolve_day_ok_iff (day_expiries : list Z) (current_tenor : Z) :
  (exists b, resolve_day day_expiries current_tenor = Ok b) <->
  (exists j x, (1 <= j)%nat /\ day_expiries !! j = Some x /\ current_tenor <= x).
Proof. apply resolve_day_ok_iff_aux. Qed.

(** X4: the bracket of a day ends on the first entry after the first one
    that is not before the target, and starts on the entry before it. *)
Theorem resolve_day_first_pair (day_expiries : list Z) (current_tenor : Z)
    (expiry1 expiry2 : Z) :
  resolve_day day_expiries current_tenor = Ok (expiry1, expiry2) ->
  exists k : nat,
    day_expiries !! k = Some expiry1 /\
    day_expiries !! S k = Some expiry2 /\
    current_tenor <= expiry2 /\
    forall m x, (1 <= m <= k)%nat -> day_expiries !! m = Some x -> x < current_tenor.
Proof.
  unfold resolve_day, getitem. intros H.
  destruct (day_expiries !! 0%nat) as [e1|] eqn:H0; simpl in H; [|done].
  destruct (day_expiries !! 1%nat) as [e2|] eqn:H1; simpl in H; [|done].
  destruct (walk_ok _ _ _ 0%nat _ _ _ _ eq_refl H0 H1 H)
    as (k & _ & Ha & Hb & Ht & Hall).
  exists k. done.
Qed.

Lemma resolve_day_first_pair_witness :
  exists k : nat,
    [10; 20; 30; 40] !! k = Some 20 /\
    [10; 20; 30; 40] !! S k = Some 30 /\
    25 <= 30 /\
    forall m x, (1 <= m <= k)%nat -> [10; 20; 30; 40] !! m = Some x -> x < 25.
Proof.
  apply (resolve_day_first_pair [10; 20; 30; 40] 25 20 30). reflexivity.
Defined.

(** X5: on a strictly ascending calendar whose first entry is before the
    target and which has an entry on or after it, the bracket encloses the
    target: expiry1 < target <= expiry2. *)
Theorem resolve_day_encloses (day_expiries : list Z) (current_tenor first : Z) :
  StronglySorted Z.lt day_expiries ->
  day_expiries !! 0%nat = Some first ->
  first < current_tenor ->
  Exists (fun e => current_tenor <= e) day_expiries ->
  exists expiry1 expiry2,
    resolve_day day_expiries current_tenor = Ok (expiry1, expiry2) /\
    expiry1 < current_tenor <= expiry2.
Proof.
  intros Hs H0 Hf Hex.
  apply Exists_exists in Hex as (x & Hin & Hx).
  apply list_elem_of_lookup in Hin as [j Hj].
  assert (Hj1 : (1 <= j)%nat).
  { destruct j; [simplify_eq; lia|lia]. }
  assert (is_Some (day_expiries !! 1%nat)) as [e2 H1].
  { apply lookup_lt_is_Some. apply lookup_lt_Some in Hj. lia. }
  destruct (walk_first day_expiries current_tenor _ 0%nat first e2 j x eq_refl
              H0 H1 Hj1 Hj Hx) as (k & a & b & Hw & _).
  destruct (walk_ok _ _ _ 0%nat _ _ _ _ eq_refl H0 H1 Hw)
    as (k' & _ & Ha & Hb & Ht & Hall).
  exists a, b. unfold resolve_day, getitem. rewrite H0, H1. simpl.
  split; [done|]. split; [|done].
  destruct k' as [|k'].
  - simplify_eq. done.
  - apply (Hall (S k')); [lia|done].
Qed.

Lemma resolve_day_encloses_witness :
  exists expiry1 expiry2,
    resolve_day [10; 20; 30; 40] 25 = Ok (expiry1, expiry2) /\
    expiry1 < 25 <= expiry2.
Proof.
  apply (resolve_day_encloses [10; 20; 30; 40] 25 10).
  - repeat constructor.
  - reflexivity.
  - lia.
  - right. right. left. lia.
Defined.

(** The dates of the rows are the days from the first one on. *)
Lemma resolve_days_dates (cal : Z -> list Z) (add : Z -> string -> Z)
    (tenor : string) (n : nat) :
  forall d rows,
    resolve_days cal add n d tenor = Ok rows ->
    rows.*1.*1 = seqZ d (Z.of_nat n).
Proof.
  induction n as [|n IH]; intros d rows H; simpl in H.
  - by injection H as <-.
  - destruct (resolve_day (cal d) (add d tenor)) as [[b1 b2]|] eqn:Hd;
      simpl in H; [|done].
    destruct (resolve_days cal add n (d + 1) tenor) as [rest|] eqn:Hr;
      simpl in H; [|done].
    injection H as <-. rewrite seqZ_cons by lia. rewrite !fmap_cons.
    rewrite (IH _ _ Hr). simpl. f_equal. f_equal; lia.
Qed.

(** The loop over the days fails with the index error only. *)
Lemma resolve_days_raise_kind (cal : Z -> list Z) (add : Z -> string -> Z)
    (tenor : string) (n : nat) :
  forall d e, resolve_days cal add n d tenor = Raise e -> e = IndexError.
Proof.
  induction n as [|n IH]; intros d e; simpl; [done|].
  destruct (resolve_day (cal d) (add d tenor)) as [[b1 b2]|e0] eqn:Hd; simpl.
  - destruct (resolve_days cal add n (d + 1) tenor) as [rest|e1] eqn:Hr;
      simpl; [done|].
    intros [= <-]. by apply (IH (d + 1)).
  - intros [= <-]. by apply resolve_day_raise in Hd.
Qed.

(** X1: when every day of the range resolves, the call returns one row per
    day, in the order of the days, each with the bracket of its day. *)
Theorem nearby_expiries_table (cal : Z -> list Z) (add : Z -> string -> Z)
    (range_start range_end : Z) (tenor : string) :
  (forall x, range_start <= x <= range_end ->
             exists b, resolve_day (cal x) (add x tenor) = Ok b) ->
  exists rows,
    _get_historical_nearby_expiries_for_tenor cal add range_start range_end tenor
      = Ok rows /\
    rows.*1.*1 = seqZ range_start (range_end - range_start + 1) /\
    forall x e1 e2,
      (x, e1, e2) ∈ rows <->
      range_start <= x <= range_end /\
      resolve_day (cal x) (add x tenor) = Ok (e1, e2).
Proof.
  intros Hall. unfold _get_historical_nearby_expiries_for_tenor.
  destruct (resolve_days cal add (Z.to_nat (range_end - range_start + 1))
              range_start tenor) as [rows|e] eqn:H.
  - exists rows. split; [done|]. split.
    + rewrite (resolve_days_dates _ _ _ _ _ _ H).
      destruct (decide (0 <= range_end - range_start + 1)) as [Hle|Hgt].
      * by rewrite Z2Nat.id.
      * rewrite Z2Nat.nonpos by lia. rewrite !seqZ_nil by lia. done.
    + intros x e1 e2. rewrite (resolve_days_rows _ _ _ _ _ _ H).
      split; intros [Hx He]; (split; [lia|done]).
  - exfalso. apply resolve_days_raise_kind in H as He. subst e.
    apply resolve_days_raise in H as (x & Hx & e & He).
    destruct (Hall x ltac:(lia)) as [b Hb]. congruence.
Qed.

Lemma nearby_expiries_table_witness :
  exists rows,
    _get_historical_nearby_expiries_for_tenor
      (fun _ => [10; 17; 24; 31]) (fun d _ => d + 7) 9 11 "7D" = Ok rows /\
    rows.*1.*1 = seqZ 9 (11 - 9 + 1) /\
    forall x e1 e2,
      (x, e1, e2) ∈ rows <->
      9 <= x <= 11 /\
      resolve_day [10; 17; 24; 31] (x + 7) = Ok (e1, e2).
Proof.
  apply (nearby_expiries_table (fun _ => [10; 17; 24; 31]) (fun d _ => d + 7) 9 11 "7D").
  intros x Hx. apply resolve_day_ok_iff_aux.
  exists 3%nat, 31. split; [lia|]. split; [reflexivity|lia].
Defined.

End BracketMore.

(** ** More on the tenor interpolation *)

Section TenorMore.
Import Tenor.
Local Open Scope Qc_scope.

Lemma Z2Qc_le (a b : Z) : (a <= b)%Z -> Z2Qc a <= Z2Qc b.
Proof.
  intros H. unfold Qcle, Z2Qc. simpl. rewrite !Qred_correct.
  by rewrite <- Zle_Qle.
Qed.

Lemma Z2Qc_lt (a b : Z) : (a < b)%Z -> Z2Qc a < Z2Qc b.
Proof.
  intros H. unfold Qclt, Z2Qc. simpl. rewrite !Qred_correct.
  by rewrite <- Zlt_Qlt.
Qed.

Lemma Z2Qc_0 : Z2Qc 0 = 0.
Proof. apply Qc_is_canon. reflexivity. Qed.

(** A factor of a row lies between 0 and 1, and is the other difference
    over the total. *)
Lemma weight_range (d1 d2 : Z) :
  (0 <= d1)%Z -> (0 <= d2)%Z -> (d1 + d2 <> 0)%Z ->
  let w := 1 - Z2Qc d1 / Z2Qc (d1 + d2) in
  0 <= w /\ w = Z2Qc d2 / Z2Qc (d1 + d2).
Proof.
  intros H1 H2 Hne w.
  assert (Hpos : 0 < Z2Qc (d1 + d2)).
  { rewrite <- Z2Qc_0. apply Z2Qc_lt. lia. }
  assert (Hw : w = Z2Qc d2 / Z2Qc (d1 + d2)).
  { subst w. rewrite Z2Qc_add in *. field.
    intros E. rewrite E in Hpos. by apply Qclt_not_eq in Hpos. }
  split; [|done]. rewrite Hw. unfold Qcdiv.
  apply Qcmult_nonneg_nonneg.
  - rewrite <- Z2Qc_0. by apply Z2Qc_le.
  - apply Qclt_le_weak. by apply Qcinv_pos.
Qed.

(** A combination with two factors from 0 on that add up to one lies
    between the two values. *)
Lemma convex_between (w1 w2 v1 v2 : Qc) :
  0 <= w1 -> 0 <= w2 -> w1 + w2 = 1 -> v1 <= v2 ->
  v1 <= w1 * v1 + w2 * v2 <= v2.
Proof.
  intros H1 H2 Hs Hv.
  assert (Hd : 0 <= v2 - v1).
  { apply Qcle_minus_iff in Hv. done. }
  split; apply Qcle_minus_iff.
  - replace (w1 * v1 + w2 * v2 + - v1) with (w2 * (v2 - v1)).
    + by apply Qcmult_nonneg_nonneg.
    + replace w1 with (1 - w2) by (rewrite <- Hs; ring). ring.
  - replace (v2 + - (w1 * v1 + w2 * v2)) with (w1 * (v2 - v1)).
    + by apply Qcmult_nonneg_nonneg.
    + replace w2 with (1 - w1) by (rewrite <- Hs; ring). ring.
Qed.





Lemma fadd_comm (x y : float) : fadd x y = fadd y x.
Proof. destruct x, y; simpl; try done. f_equal. ring. Qed.

(** X8: the order of the two expiries of a bracket does not change the
    outcome of a row. *)
Theorem interpolate_row_swap (e1 e2 rolling : Z) (vols_row : gmap Z float) :
  interpolate_row (tenor_row e1 e2 rolling) vols_row =
  interpolate_row (tenor_row e2 e1 rolling) vols_row.
Proof.
  unfold interpolate_row, interp_vol, weight, truediv, loc. simpl.
  rewrite (Z.add_comm (diff_to_exp e2 rolling)).
  case_decide; [done|]. simpl.
  destruct (vols_row !! e1) as [v1|], (vols_row !! e2) as [v2|]; simpl; try done.
  f_equal. apply fadd_comm.
Qed.

(** X9: a row fails with [ZeroDivisionError] exactly when its total is zero,
    with [KeyError] exactly when the total is not zero and [vols] lacks the
    column of one of the two expiries, and with no other error. *)
Theorem interpolate_row_errors (r : row) (vols_row : gmap Z float) :
  (interpolate_row r vols_row = Raise ZeroDivisionError <-> diff_exp r = 0%Z) /\
  (interpolate_row r vols_row = Raise KeyError <->
     diff_exp r <> 0%Z /\
     (vols_row !! expiry1 r = None \/ vols_row !! expiry2 r = None)) /\
  (forall e, interpolate_row r vols_row = Raise e ->
             e = ZeroDivisionError \/ e = KeyError).
Proof.
  unfold interpolate_row, interp_vol, weight, truediv, loc.
  case_decide as Hz; simpl.
  - split; [done|]. split; [|intros e [= <-]; by left].
    split; [done|]. by intros [? _].
  - destruct (vols_row !! expiry1 r) as [v1|]; simpl.
    + destruct (vols_row !! expiry2 r) as [v2|]; simpl.
      * split; [done|]. split; [|done].
        split; [done|]. by intros [_ [?|?]].
      * split; [done|]. split; [|intros e [= <-]; by right].
        split; [|done]. intros _. split; [done|by right].
    + split; [done|]. split; [|intros e [= <-]; by right].
      split; [|done]. intros _. split; [done|by left].
Qed.

(** X10: when every row has a value the loop returns one value per row,
    under the labels of the rows and in their order. *)
Theorem interpolate_rows_labels (rows : list (Z * row * gmap Z float)) :
  Forall (fun x => exists v, interpolate_row x.1.2 x.2 = Ok v) rows ->
  exists vs,
    interpolate_rows rows = Ok vs /\
    vs.*1 = rows.*1.*1 /\
    Forall2 (fun x v => interpolate_row x.1.2 x.2 = Ok v) rows (vs.*2).
Proof.
  induction 1 as [|[[idx r] vols_row] rest [v Hv] _ (vs & Hvs & Hl & Hf)]; simpl.
  - exists []. repeat split. constructor.
  - simpl in Hv. rewrite Hv, Hvs. simpl.
    exists ((idx, v) :: vs). split; [done|]. split.
    + rewrite !fmap_cons, Hl. done.
    + rewrite fmap_cons. by constructor.
Qed.

Lemma interpolate_rows_labels_witness :
  let rows := [ (100%Z, tenor_row 10 20 1040400, {[ 10%Z := Num 1; 20%Z := Num 2 ]});
                (200%Z, tenor_row 10 20 1040500, {[ 10%Z := Num 1; 20%Z := NaN ]}) ] in
  exists vs,
    interpolate_rows rows = Ok vs /\
    vs.*1 = rows.*1.*1 /\
    Forall2 (fun x v => interpolate_row x.1.2 x.2 = Ok v) rows (vs.*2).
Proof.
  apply (interpolate_rows_labels
           [ (100%Z, tenor_row 10 20 1040400, {[ 10%Z := Num 1; 20%Z := Num 2 ]});
             (200%Z, tenor_row 10 20 1040500, {[ 10%Z := Num 1; 20%Z := NaN ]}) ]).
  repeat constructor; eexists; reflexivity.
Defined.

End TenorMore.

(** ** The request of the tenor engine *)

Section EngineFacts.
Import Bracket Engine.

Lemma elem_of_unique (x : string) (l : list string) : x ∈ unique l <-> x ∈ l.
Proof.
  induction l as [|y l IH]; simpl; [done|].
  rewrite !elem_of_cons, list_elem_of_filter, IH.
  destruct (decide (x = y)); tauto.
Qed.

Lemma NoDup_unique (l : list string) : NoDup (unique l).
Proof.
  induction l as [|y l IH]; simpl; [constructor|].
  apply NoDup_cons. split.
  - rewrite list_elem_of_filter. intros [Hy _]. by apply Hy.
  - by apply NoDup_filter.
Qed.

Lemma unique_nil (l : list string) : unique l = [] <-> l = [].
Proof. destruct l; simpl; split; done. Qed.

(** A bracket table is returned exactly when every day resolves, and holds
    one row per day. *)
Lemma nearby_ok_iff (cal : Z -> list Z) (add : Z -> string -> Z)
    (rs re : Z) (t : string) :
  (exists rows, _get_historical_nearby_expiries_for_tenor cal add rs re t = Ok rows) <->
  (forall x, rs <= x <= re -> exists b, resolve_day (cal x) (add x t) = Ok b).
Proof.
  unfold _get_historical_nearby_expiries_for_tenor. split.
  - intros [rows H] x Hx.
    destruct (resolve_day (cal x) (add x t)) as [b|e] eqn:Hd; [by exists b|].
    assert (Hf : resolve_days cal add (Z.to_nat (re - rs + 1)) rs t = Raise IndexError).
    { apply resolve_days_raise. exists x. split; [lia|by exists e]. }
    congruence.
  - intros Hall.
    destruct (resolve_days cal add (Z.to_nat (re - rs + 1)) rs t) as [rows|e] eqn:H;
      [by exists rows|].
    apply resolve_days_raise_kind in H as He. subst e.
    apply resolve_days_raise in H as (x & Hx & e & He).
    destruct (Hall x ltac:(lia)) as [b Hb]. congruence.
Qed.

Lemma nearby_length (cal : Z -> list Z) (add : Z -> string -> Z)
    (rs re : Z) (t : string) (rows : list (Z * Z * Z)) :
  _get_historical_nearby_expiries_for_tenor cal add rs re t = Ok rows ->
  length rows = Z.to_nat (re - rs + 1).
Proof.
  unfold _get_historical_nearby_expiries_for_tenor. intros H.
  apply resolve_days_dates in H.
  apply (f_equal length) in H. rewrite !length_fmap, length_seqZ in H.
  by rewrite Nat2Z.id in H.
Qed.

Lemma nearby_raise_kind (cal : Z -> list Z) (add : Z -> string -> Z)
    (rs re : Z) (t : string) (e : exception) :
  _get_historical_nearby_expiries_for_tenor cal add rs re t = Raise e ->
  e = IndexError.
Proof. apply resolve_days_raise_kind. Qed.

(** The tables of the tenors, when the loop returns them. *)
Lemma nearby_for_tenors_ok (cal : Z -> list Z) (add : Z -> string -> Z)
    (rs re : Z) (tenor : list string) (nearby : list (list (Z * Z * Z))) :
  nearby_for_tenors cal add rs re tenor = Ok nearby <->
  Forall2 (fun t rows =>
             _get_historical_nearby_expiries_for_tenor cal add rs re t = Ok rows)
          tenor nearby.
Proof.
  revert nearby. induction tenor as [|t tenor IH]; intros nearby; simpl.
  - split; [intros [= <-]; constructor|by intros ->%Forall2_nil_inv_l].
  - destruct (_get_historical_nearby_expiries_for_tenor cal add rs re t)
      as [rows|e] eqn:Ht; simpl.
    + destruct (nearby_for_tenors cal add rs re tenor) as [others|e] eqn:Hr; simpl.
      * split.
        -- intros [= <-]. constructor; [done|]. by apply IH.
        -- intros (rows' & others' & Hr' & Ho & ->)%Forall2_cons_inv_l.
           apply IH in Ho. congruence.
      * split; [done|].
        intros (rows' & others' & Hr' & Ho & ->)%Forall2_cons_inv_l.
        apply IH in Ho. congruence.
    + split; [done|].
      intros (rows' & others' & Hr' & Ho & ->)%Forall2_cons_inv_l. congruence.
Qed.

Lemma nearby_for_tenors_raise_kind (cal : Z -> list Z) (add : Z -> string -> Z)
    (rs re : Z) (tenor : list string) (e : exception) :
  nearby_for_tenors cal add rs re tenor = Raise e -> e = IndexError.
Proof.
  induction tenor as [|t tenor IH]; simpl; [done|].
  destruct (_get_historical_nearby_expiries_for_tenor cal add rs re t)
    as [rows|e0] eqn:Ht; simpl.
  - destruct (nearby_for_tenors cal add rs re tenor) as [others|e1]; simpl; [done|].
    intros [= <-]. by apply IH.
  - intros [= <-]. by apply nearby_raise_kind in Ht.
Qed.

(** The requested expiries are none exactly when no tenor has a row. *)
Lemma unique_expiries_nil (strftime : Z -> string) (nearby : list (list (Z * Z * Z))) :
  unique_expiries strftime nearby = [] <-> Forall (fun rows => rows = []) nearby.
Proof.
  unfold unique_expiries. rewrite unique_nil.
  induction nearby as [|rows nearby IH]; simpl.
  - split; [constructor|done].
  - rewrite Forall_cons, <- IH. unfold expiry_columns.
    destruct rows as [|r rows]; simpl; [tauto|]. split; [done|]. by intros [? _].
Qed.

(** X12: before any query is sent, the tenor engine fails exactly when the
    delta, field or tenor list is empty, the date range is empty, or some
    day of the range cannot be resolved for some tenor; the error is always
    [IndexError]. *)
Theorem tenor_predicates_ok_iff (cal : Z -> list Z) (add : Z -> string -> Z)
    (strftime : Z -> string) (range_start range_end : Z)
    (delta : list Predicate.scalar) (tenor : list string)
    (field : list Predicate.scalar) :
  ((exists p, tenor_predicates cal add strftime range_start range_end
                delta tenor field = Ok p) <->
   delta <> [] /\ field <> [] /\ tenor <> [] /\ range_start <= range_end /\
   forall t x, t ∈ tenor -> range_start <= x <= range_end ->
               exists b, resolve_day (cal x) (add x t) = Ok b) /\
  (forall e, tenor_predicates cal add strftime range_start range_end
               delta tenor field = Raise e -> e = IndexError).
Proof.
  unfold tenor_predicates.
  destruct (nearby_for_tenors cal add range_start range_end tenor)
    as [nearby|e0] eqn:Hn; simpl.
  - apply nearby_for_tenors_ok in Hn.
    assert (Hdays : forall t x, t ∈ tenor -> range_start <= x <= range_end ->
                      exists b, resolve_day (cal x) (add x t) = Ok b).
    { intros t x Ht Hx.
      apply list_elem_of_lookup in Ht as [i Hi].
      destruct (Forall2_lookup_l _ _ _ _ _ Hn Hi) as (rows & _ & Hrows).
      eapply nearby_ok_iff; [by exists rows|done]. }
    assert (Hnil : unique_expiries strftime nearby = [] <->
                   tenor = [] \/ range_end < range_start).
    { rewrite unique_expiries_nil. split.
      - intros Hall. destruct tenor as [|t tenor]; [by left|right].
        apply Forall2_cons_inv_l in Hn as (rows & others & Hr & _ & ->).
        apply Forall_cons in Hall as [-> _].
        apply nearby_length in Hr. simpl in Hr. lia.
      - intros Hc. apply Forall_forall. intros rows Hin.
        apply list_elem_of_lookup in Hin as [i Hi].
        destruct (Forall2_lookup_r _ _ _ _ _ Hn Hi) as (t & Ht & Hrows).
        destruct Hc as [->|Hlt]; [done|].
        apply nearby_length in Hrows. rewrite Z2Nat.nonpos in Hrows by lia.
        by destruct rows. }
    destruct delta as [|d delta]; simpl.
    { split; [|by intros e [= <-]].
      split; [by intros [p ?]|by intros [? _]]. }
    destruct (unique_expiries strftime nearby) as [|u us] eqn:Hu; simpl.
    { split; [|by intros e [= <-]].
      split; [by intros [p ?]|].
      intros (_ & _ & Ht & Hr & _). destruct Hnil as [Hnil _].
      destruct (Hnil eq_refl); [done|lia]. }
    assert (Hne : tenor <> [] /\ range_start <= range_end).
    { split.
      - intros ->. by destruct Hnil as [_ Hnil]; specialize (Hnil (or_introl eq_refl)).
      - destruct (decide (range_start <= range_end)) as [|Hgt]; [done|].
        assert (Hlt : range_end < range_start) by lia.
        by destruct Hnil as [_ Hnil]; specialize (Hnil (or_intror Hlt)). }
    destruct field as [|f field]; simpl.
    { split; [|by intros e [= <-]].
      split; [by intros [p ?]|by intros (_ & ? & _)]. }
    split; [|done]. split; [|by eexists].
    intros _. destruct Hne. repeat split; done.
  - apply nearby_for_tenors_raise_kind in Hn as He. subst e0.
    split; [|by intros e [= <-]]. split; [by intros [p ?]|].
    intros (_ & _ & _ & _ & Hall). exfalso.
    assert (exists nearby, nearby_for_tenors cal add range_start range_end tenor
                             = Ok nearby) as [nearby Hok]; [|congruence].
    clear Hn. induction tenor as [|t tenor IH]; simpl; [by eexists|].
    destruct (proj2 (nearby_ok_iff cal add range_start range_end t)) as [rows ->].
    { intros x Hx. apply Hall; [by left|done]. }
    destruct IH as [others ->]; [|by eexists].
    intros t' x Ht' Hx. apply Hall; [by right|done].
Qed.

(** X13: the expiries requested from the store are distinct, and are exactly
    the two expiries of the bracket of each day of the range for each
    tenor: none is missing and none is added. *)
Theorem unique_expiries_cover (cal : Z -> list Z) (add : Z -> string -> Z)
    (strftime : Z -> string) (range_start range_end : Z)
    (tenor : list string) (nearby : list (list (Z * Z * Z))) :
  nearby_for_tenors cal add range_start range_end tenor = Ok nearby ->
  NoDup (unique_expiries strftime nearby) /\
  forall s,
    s ∈ unique_expiries strftime nearby <->
    exists t x e1 e2,
      t ∈ tenor /\ range_start <= x <= range_end /\
      resolve_day (cal x) (add x t) = Ok (e1, e2) /\
      (s = strftime e1 \/ s = strftime e2).
Proof.
  intros Hn. apply nearby_for_tenors_ok in Hn.
  split; [apply NoDup_unique|]. intros s.
  unfold unique_expiries. rewrite elem_of_unique, list_elem_of_In, in_concat.
  split.
  - intros (col & Hcol & Hs). apply list_elem_of_In in Hcol, Hs.
    apply list_elem_of_fmap in Hcol as (rows & -> & Hrows).
    apply list_elem_of_lookup in Hrows as [i Hi].
    destruct (Forall2_lookup_r _ _ _ _ _ Hn Hi) as (t & Ht & Hcall).
    unfold expiry_columns in Hs. apply elem_of_app in Hs.
    assert (exists x e1 e2, (x, e1, e2) ∈ rows /\ (s = strftime e1 \/ s = strftime e2))
      as (x & e1 & e2 & Hin & Hse).
    { destruct Hs as [Hs|Hs].
      - apply list_elem_of_fmap in Hs as (e1 & -> & He).
        apply list_elem_of_fmap in He as ([x e1'] & -> & He).
        apply list_elem_of_fmap in He as ([[x' e1''] e2] & [= <- <-] & He).
        exists x, e1', e2. split; [done|by left].
      - apply list_elem_of_fmap in Hs as (e2 & -> & He).
        apply list_elem_of_fmap in He as ([[x e1] e2'] & -> & He).
        exists x, e1, e2'. split; [done|by right]. }
    apply (nearby_expiries_rows _ _ _ _ _ _ Hcall) in Hin as [Hx Hd].
    exists t, x, e1, e2. repeat split; try done; try lia.
    apply list_elem_of_lookup. by exists i.
  - intros (t & x & e1 & e2 & Ht & Hx & Hd & Hs).
    apply list_elem_of_lookup in Ht as [i Hi].
    destruct (Forall2_lookup_l _ _ _ _ _ Hn Hi) as (rows & Hrows & Hcall).
    assert (Hin : (x, e1, e2) ∈ rows).
    { by apply (nearby_expiries_rows _ _ _ _ _ _ Hcall). }
    exists (expiry_columns strftime rows). split.
    + apply list_elem_of_In, list_elem_of_fmap. exists rows. split; [done|].
      apply list_elem_of_lookup. by exists i.
    + apply list_elem_of_In. unfold expiry_columns. apply elem_of_app.
      destruct Hs as [-> | ->]; [left|right].
      * apply list_elem_of_fmap. exists e1. split; [done|].
        apply list_elem_of_fmap. exists (x, e1). split; [done|].
        apply list_elem_of_fmap. by exists (x, e1, e2).
      * apply list_elem_of_fmap. exists e2. split; [done|].
        apply list_elem_of_fmap. by exists (x, e1, e2).
Qed.

Lemma unique_expiries_cover_witness :
  let cal := fun _ : Z => [10; 17; 24; 31] in
  let add := fun (d : Z) (_ : string) => d + 7 in
  let strftime := fun d : Z => NilEmpty.string_of_int (Z.to_int d) in
  let nearby := [[(9, 10, 17); (10, 10, 17); (11, 17, 24)]] in
  NoDup (unique_expiries strftime nearby) /\
  forall s,
    s ∈ unique_expiries strftime nearby <->
    exists t x e1 e2,
      t ∈ ["7D"] /\ 9 <= x <= 11 /\
      resolve_day (cal x) (add x t) = Ok (e1, e2) /\
      (s = strftime e1 \/ s = strftime e2).
Proof.
  apply (unique_expiries_cover (fun _ => [10; 17; 24; 31]) (fun d _ => d + 7)
           (fun d => NilEmpty.string_of_int (Z.to_int d)) 9 11 ["7D"]
           [[(9, 10, 17); (10, 10, 17); (11, 17, 24)]]).
  reflexivity.
Defined.

(** The rows of the loop over the days carry dates from the first day on. *)
Lemma resolve_days_from (cal : Z -> list Z) (add : Z -> string -> Z)
    (tenor : string) (n : nat) (d : Z) (rows : list (Z * Z * Z)) :
  resolve_days cal add n d tenor = Ok rows ->
  Forall (fun r => d <= r.1.1) rows.
Proof.
  intros H. apply Forall_forall. intros [[x e1] e2] Hin.
  apply (resolve_days_rows _ _ _ _ _ _ H) in Hin. simpl. lia.
Qed.

Lemma resolve_days_S (cal : Z -> list Z) (add : Z -> string -> Z)
    (tenor : string) (n : nat) (d : Z) :
  resolve_days cal add (S n) d tenor =
  (b ← resolve_day (cal d) (add d tenor);
   rest ← resolve_days cal add n (d + 1) tenor;
   Ok ((d, b.1, b.2) :: rest)).
Proof. reflexivity. Qed.

(** The row carried to a label, for the rows of the loop over the days. *)
Lemma resolve_days_ffill (cal : Z -> list Z) (add : Z -> string -> Z)
    (tenor : string) (ts : Z) (n : nat) :
  forall d rows,
    resolve_days cal add (S n) d tenor = Ok rows ->
    Tenor.midnight d <= ts ->
    exists e1 e2,
      reindex_ffill rows ts = Some (e1, e2) /\
      resolve_day (cal (Z.min (ts / 86400) (d + Z.of_nat n)))
                  (add (Z.min (ts / 86400) (d + Z.of_nat n)) tenor) = Ok (e1, e2).
Proof.
  unfold reindex_ffill, Tenor.midnight.
  induction n as [|n IH]; intros d rows H Hts.
  - simpl in H.
    destruct (resolve_day (cal d) (add d tenor)) as [[b1 b2]|] eqn:Hd;
      simpl in H; [|done].
    injection H as <-. exists b1, b2.
    rewrite filter_cons. simpl. rewrite decide_True by done. simpl.
    split; [done|].
    assert (d <= ts / 86400) by (apply Z.div_le_lower_bound; lia).
    by replace (Z.min (ts / 86400) (d + Z.of_nat 0)) with d by lia.
  - rewrite resolve_days_S in H.
    destruct (resolve_day (cal d) (add d tenor)) as [[b1 b2]|] eqn:Hd;
      [|done].
    destruct (resolve_days cal add (S n) (d + 1) tenor) as [rest|] eqn:Hr;
      [|done].
    unfold mbind, result_bind in H. simpl in H.
    injection H as <-.
    rewrite filter_cons. simpl. rewrite decide_True by done.
    destruct (decide (86400 * (d + 1) <= ts)) as [Hle|Hgt].
    + destruct (IH (d + 1) rest Hr Hle) as (e1 & e2 & Hl & Hres).
      exists e1, e2. split.
      * rewrite last_cons.
        destruct (last (filter (fun r => 86400 * r.1.1 <= ts) rest)); [done|].
        done.
      * by replace (d + Z.of_nat (S n)) with (d + 1 + Z.of_nat n) by lia.
    + assert (Hnil : filter (fun r => 86400 * r.1.1 <= ts) rest = []).
      { apply resolve_days_from in Hr. induction Hr as [|r rest Hr _ IHr]; [done|].
        rewrite filter_cons, decide_False by lia. done. }
      rewrite Hnil. simpl. exists b1, b2. split; [done|].
      assert (d <= ts / 86400) by (apply Z.div_le_lower_bound; lia).
      assert (ts / 86400 < d + 1) by (apply Z.div_lt_upper_bound; lia).
      by replace (Z.min (ts / 86400) (d + Z.of_nat (S n))) with d by lia.
Qed.

(** X14: the forward-fill join gives every observation the bracket of its own
    day, and an observation after the last day that of the last day; a label
    before the first day gets none. *)
Theorem reindex_ffill_day (cal : Z -> list Z) (add : Z -> string -> Z)
    (range_start range_end : Z) (tenor : string) (rows : list (Z * Z * Z))
    (ts : Z) :
  _get_historical_nearby_expiries_for_tenor cal add range_start range_end tenor
    = Ok rows ->
  (ts < Tenor.midnight range_start -> reindex_ffill rows ts = None) /\
  (range_start <= range_end -> Tenor.midnight range_start <= ts ->
   let day := Z.min (ts / 86400) range_end in
   exists e1 e2,
     reindex_ffill rows ts = Some (e1, e2) /\
     resolve_day (cal day) (add day tenor) = Ok (e1, e2)).
Proof.
  unfold _get_historical_nearby_expiries_for_tenor. intros H. split.
  - intros Hts. apply resolve_days_from in H. unfold reindex_ffill.
    assert (Hnil : filter (fun r => Tenor.midnight r.1.1 <= ts) rows = []).
    { induction H as [|r rest Hr _ IHr]; [done|].
      unfold Tenor.midnight in *. rewrite filter_cons, decide_False by lia. done. }
    by rewrite Hnil.
  - intros Hr Hts.
    assert (Hn : Z.to_nat (range_end - range_start + 1)
                 = S (Z.to_nat (range_end - range_start))) by lia.
    rewrite Hn in H.
    destruct (resolve_days_ffill _ _ _ ts _ _ _ H Hts) as (e1 & e2 & Hl & Hres).
    exists e1, e2. split; [done|].
    by replace (range_start + Z.of_nat (Z.to_nat (range_end - range_start)))
      with range_end in Hres by lia.
Qed.

Lemma reindex_ffill_day_witness :
  let cal := fun _ : Z => [10; 17; 24; 31] in
  let add := fun (d : Z) (_ : string) => d + 7 in
  let rows := [(9, 10, 17); (10, 10, 17); (11, 17, 24)] in
  (900000 < Tenor.midnight 9 -> reindex_ffill rows 900000 = None) /\
  (9 <= 11 -> Tenor.midnight 9 <= 900000 ->
   let day := Z.min (900000 / 86400) 11 in
   exists e1 e2,
     reindex_ffill rows 900000 = Some (e1, e2) /\
     resolve_day (cal day) (add day "7D") = Ok (e1, e2)).
Proof.
  apply (reindex_ffill_day (fun _ => [10; 17; 24; 31]) (fun d _ => d + 7)
           9 11 "7D" [(9, 10, 17); (10, 10, 17); (11, 17, 24)] 900000).
  reflexivity.
Defined.

End EngineFacts.

(** ** More on the derived metrics *)

Section MetricMore.
Import Metric.

(** X15: the butterfly of one (d, f, t) has a value at every label of the
    call, put or ATM series and at no other; at a label that one of the three
    series lacks the value is [NaN]. *)
Theorem butterfly_value_labels (history : list obs) (d f t : string) (ts : Z) :
  let call := select history t f (d +:+ "C") in
  let put := select history t f (d +:+ "P") in
  let atm := select history t f "ATM" in
  (is_Some (butterfly_value history d f t !! ts) <->
   is_Some (call !! ts) \/ is_Some (put !! ts) \/ is_Some (atm !! ts)) /\
  (call !! ts = None \/ put !! ts = None \/ atm !! ts = None ->
   is_Some (butterfly_value history d f t !! ts) ->
   butterfly_value history d f t !! ts = Some NaN).
Proof.
  unfold butterfly_value, series_op, series_scale. simpl.
  rewrite !lookup_merge, lookup_fmap.
  destruct (select history t f (d +:+ "C") !! ts) as [c|],
           (select history t f (d +:+ "P") !! ts) as [p|],
           (select history t f "ATM" !! ts) as [a|]; simpl.
  all: rewrite ?is_Some_alt; split; [tauto|].
  all: intros [?|[?|?]] Hs; try done; try tauto.
Qed.

End MetricMore.

(** ** Risk reversal *)

Section ReversalFacts.
Import Reversal.

(** The rows of the result are the entries of the value series of the
    requested triples. *)
Lemma risk_reversal_rows_elem (history : list Metric.obs) (normalize : bool)
    (d f t : string) (r : row) :
  r ∈ risk_reversal_rows history normalize d f t <->
  risk_reversal_value history normalize d f t !! timestamp r = Some (value r) /\
  field r = f /\ delta r = d /\ tenor r = t.
Proof.
  unfold risk_reversal_rows. rewrite list_elem_of_fmap. split.
  - intros ([ts v] & -> & Hin). simpl.
    rewrite merge_sort_Permutation in Hin.
    apply elem_of_map_to_list in Hin. done.
  - intros (Hv & <- & <- & <-). exists (timestamp r, value r). split.
    + by destruct r.
    + rewrite merge_sort_Permutation. by apply elem_of_map_to_list.
Qed.

Lemma risk_reversal_elem (history : list Metric.obs) (normalize : bool)
    (delta field tenor : list string) (r : row) :
  r ∈ get_historical_risk_reversal_by_delta_and_tenor history normalize
        delta field tenor <->
  Reversal.delta r ∈ delta /\ Reversal.field r ∈ field /\
  Reversal.tenor r ∈ tenor /\
  risk_reversal_value history normalize (Reversal.delta r) (Reversal.field r)
    (Reversal.tenor r) !! timestamp r = Some (value r).
Proof.
  unfold get_historical_risk_reversal_by_delta_and_tenor.
  rewrite list_elem_of_bind. split.
  - intros (d & Hr & Hd). apply list_elem_of_bind in Hr as (f & Hr & Hf).
    apply list_elem_of_bind in Hr as (t & Hr & Ht).
    apply risk_reversal_rows_elem in Hr as (Hv & <- & <- & <-). done.
  - intros (Hd & Hf & Ht & Hv). exists (Reversal.delta r). split; [|done].
    apply list_elem_of_bind. exists (Reversal.field r). split; [|done].
    apply list_elem_of_bind. exists (Reversal.tenor r). split; [|done].
    by apply risk_reversal_rows_elem.
Qed.

(** The value of a label in the normalised series. *)
Lemma normalized_lookup (value atm : gmap Z float) (ts : Z) (u : float) :
  value !! ts = Some u ->
  assign_column value (series_div value atm) !! ts =
  Some (match atm !! ts with Some a => fdiv u a | None => Quot NaN end).
Proof.
  intros Hu. unfold assign_column, series_div.
  rewrite map_lookup_imap, Hu. simpl. rewrite lookup_merge, Hu.
  by destruct (atm !! ts).
Qed.

(** X16: without normalisation, for a requested delta, field and tenor and a
    label at which the call and put tenor series have the values [c] and
    [p], the result has a row with the value [c - p] and no row of this
    triple and label has another value. *)
Theorem risk_reversal_formula (history : list Metric.obs)
    (delta field tenor : list string) (d f t : string) (ts : Z) (c p : float) :
  Metric.unique_index history ->
  d ∈ delta -> f ∈ field -> t ∈ tenor ->
  {| Metric.timestamp := ts; Metric.value := c; Metric.field := f;
     Metric.delta := d +:+ "C"; Metric.tenor := t |} ∈ history ->
  {| Metric.timestamp := ts; Metric.value := p; Metric.field := f;
     Metric.delta := d +:+ "P"; Metric.tenor := t |} ∈ history ->
  let rr := get_historical_risk_reversal_by_delta_and_tenor history false
              delta field tenor in
  let row v := {| timestamp := ts; value := v; field := f; delta := d; tenor := t |} in
  row (Quot (fsub c p)) ∈ rr /\
  (forall v, row v ∈ rr -> v = Quot (fsub c p)) /\
  (forall x y, c = Num x -> p = Num y -> row (Quot (Num (x - y))) ∈ rr).
Proof.
  intros Hu Hd Hf Ht Hc Hp rr row.
  apply (select_lookup _ _ Hu) in Hc, Hp. simpl in Hc, Hp.
  assert (Hv : risk_reversal_value history false d f t !! ts = Some (Quot (fsub c p))).
  { unfold risk_reversal_value, difference. rewrite lookup_fmap.
    by rewrite (series_op_lookup _ _ _ _ _ _ Hc Hp). }
  assert (H1 : row (Quot (fsub c p)) ∈ rr) by (by apply risk_reversal_elem).
  split; [done|]. split.
  - intros v Hin. apply risk_reversal_elem in Hin as (_ & _ & _ & Hv').
    change (risk_reversal_value history false d f t !! ts = Some v) in Hv'.
    congruence.
  - by intros x y -> ->.
Qed.

Lemma risk_reversal_formula_witness :
  let history :=
    [ {| Metric.timestamp := 100; Metric.value := Num 2; Metric.field := "mid_iv";
         Metric.delta := "15C"; Metric.tenor := "7D" |};
      {| Metric.timestamp := 100; Metric.value := Num 1; Metric.field := "mid_iv";
         Metric.delta := "15P"; Metric.tenor := "7D" |} ] in
  let rr := get_historical_risk_reversal_by_delta_and_tenor history false
              ["15"] ["mid_iv"] ["7D"] in
  let row v := {| timestamp := 100; value := v; field := "mid_iv"; delta := "15"; tenor := "7D" |} in
  row (Quot (fsub (Num 2) (Num 1))) ∈ rr /\
  (forall v, row v ∈ rr -> v = Quot (fsub (Num 2) (Num 1))) /\
  (forall x y, Num 2 = Num x -> Num 1 = Num y -> row (Quot (Num (x - y))) ∈ rr).
Proof.
  apply (risk_reversal_formula
           [ {| Metric.timestamp := 100; Metric.value := Num 2; Metric.field := "mid_iv";
                Metric.delta := "15C"; Metric.tenor := "7D" |};
             {| Metric.timestamp := 100; Metric.value := Num 1; Metric.field := "mid_iv";
                Metric.delta := "15P"; Metric.tenor := "7D" |} ]
           ["15"] ["mid_iv"] ["7D"] "15" "mid_iv" "7D" 100 (Num 2) (Num 1)).
  - refine (bool_decide_unpack _ _). vm_compute. exact I.
  - repeat constructor.
  - repeat constructor.
  - repeat constructor.
  - repeat constructor.
  - repeat constructor.
Defined.

(** X17: with normalisation, at a label at which the call and put series have
    the values [c] and [p], the row holds [(c - p) / a] when the ATM series
    has the value [a] there, and [NaN] when the ATM series lacks the label;
    a zero ATM value gives no number. *)
Theorem risk_reversal_normalized (history : list Metric.obs)
    (delta field tenor : list string) (d f t : string) (ts : Z) (c p : float) :
  Metric.unique_index history ->
  d ∈ delta -> f ∈ field -> t ∈ tenor ->
  {| Metric.timestamp := ts; Metric.value := c; Metric.field := f;
     Metric.delta := d +:+ "C"; Metric.tenor := t |} ∈ history ->
  {| Metric.timestamp := ts; Metric.value := p; Metric.field := f;
     Metric.delta := d +:+ "P"; Metric.tenor := t |} ∈ history ->
  let rr := get_historical_risk_reversal_by_delta_and_tenor history true
              delta field tenor in
  let row v := {| timestamp := ts; value := v; field := f; delta := d; tenor := t |} in
  (forall a, Metric.select history t f "ATM" !! ts = Some a ->
             row (fdiv (fsub c p) a) ∈ rr) /\
  (Metric.select history t f "ATM" !! ts = None -> row (Quot NaN) ∈ rr) /\
  (forall x y z, c = Num x -> p = Num y ->
     Metric.select history t f "ATM" !! ts = Some (Num z) ->
     (z <> 0%Qc -> row (Quot (Num ((x - y) / z))) ∈ rr) /\
     (z = 0%Qc -> row DivByZero ∈ rr)).
Proof.
  intros Hu Hd Hf Ht Hc Hp rr row.
  apply (select_lookup _ _ Hu) in Hc, Hp. simpl in Hc, Hp.
  assert (Hv : risk_reversal_value history true d f t !! ts =
               Some (match Metric.select history t f "ATM" !! ts with
                     | Some a => fdiv (fsub c p) a
                     | None => Quot NaN
                     end)).
  { unfold risk_reversal_value. apply normalized_lookup.
    unfold difference. by apply series_op_lookup. }
  assert (Hrow : forall v, risk_reversal_value history true d f t !! ts = Some v ->
                           row v ∈ rr).
  { intros v Hv'. by apply risk_reversal_elem. }
  split; [|split].
  - intros a Ha. apply Hrow. by rewrite Hv, Ha.
  - intros Ha. apply Hrow. by rewrite Hv, Ha.
  - intros x y z -> -> Ha. split; intros Hz.
    + apply Hrow. rewrite Hv, Ha. simpl. by rewrite decide_False.
    + apply Hrow. rewrite Hv, Ha. simpl. by rewrite decide_True.
Qed.

Lemma risk_reversal_normalized_witness :
  let history :=
    [ {| Metric.timestamp := 100; Metric.value := Num 2; Metric.field := "mid_iv";
         Metric.delta := "15C"; Metric.tenor := "7D" |};
      {| Metric.timestamp := 100; Metric.value := Num 1; Metric.field := "mid_iv";
         Metric.delta := "15P"; Metric.tenor := "7D" |};
      {| Metric.timestamp := 100; Metric.value := Num 2; Metric.field := "mid_iv";
         Metric.delta := "ATM"; Metric.tenor := "7D" |} ] in
  let rr := get_historical_risk_reversal_by_delta_and_tenor history true
              ["15"] ["mid_iv"] ["7D"] in
  let row v := {| timestamp := 100; value := v; field := "mid_iv"; delta := "15"; tenor := "7D" |} in
  (forall a, Metric.select history "7D" "mid_iv" "ATM" !! 100 = Some a ->
             row (fdiv (fsub (Num 2) (Num 1)) a) ∈ rr) /\
  (Metric.select history "7D" "mid_iv" "ATM" !! 100 = None -> row (Quot NaN) ∈ rr) /\
  (forall x y z, Num 2 = Num x -> Num 1 = Num y ->
     Metric.select history "7D" "mid_iv" "ATM" !! 100 = Some (Num z) ->
     (z <> 0%Qc -> row (Quot (Num ((x - y) / z))) ∈ rr) /\
     (z = 0%Qc -> row DivByZero ∈ rr)).
Proof.
  apply (risk_reversal_normalized
           [ {| Metric.timestamp := 100; Metric.value := Num 2; Metric.field := "mid_iv";
                Metric.delta := "15C"; Metric.tenor := "7D" |};
             {| Metric.timestamp := 100; Metric.value := Num 1; Metric.field := "mid_iv";
                Metric.delta := "15P"; Metric.tenor := "7D" |};
             {| Metric.timestamp := 100; Metric.value := Num 2; Metric.field := "mid_iv";
                Metric.delta := "ATM"; Metric.tenor := "7D" |} ]
           ["15"] ["mid_iv"] ["7D"] "15" "mid_iv" "7D" 100 (Num 2) (Num 1)).
  - refine (bool_decide_unpack _ _). vm_compute. exact I.
  - repeat constructor.
  - repeat constructor.
  - repeat constructor.
  - repeat constructor.
  - repeat constructor.
Defined.

Lemma fsub_fneg (x y : float) : fsub x y = fneg (fsub y x).
Proof. destruct x, y; simpl; try done. f_equal. ring. Qed.

Lemma fdiv_fneg (x y : float) : fdiv (fneg x) y = qneg (fdiv x y).
Proof.
  destruct x as [a|], y as [b|]; simpl; try done.
  case_decide; simpl; [done|]. do 2 f_equal. unfold Qcdiv. ring.
Qed.

(** X18: exchanging the call and put series negates the risk reversal of a
    (d, f, t), with or without normalisation. *)
Theorem risk_reversal_antisymmetry (history swapped : list Metric.obs)
    (normalize : bool) (d f t : string) :
  Metric.select swapped t f (d +:+ "C") = Metric.select history t f (d +:+ "P") ->
  Metric.select swapped t f (d +:+ "P") = Metric.select history t f (d +:+ "C") ->
  Metric.select swapped t f "ATM" = Metric.select history t f "ATM" ->
  risk_reversal_value swapped normalize d f t =
  qneg <$> risk_reversal_value history normalize d f t.
Proof.
  intros Hc Hp Ha.
  assert (Hd : forall ts, difference swapped d f t !! ts =
                          fneg <$> difference history d f t !! ts).
  { intros ts. unfold difference, Metric.series_op. rewrite Hc, Hp, !lookup_merge.
    destruct (Metric.select history t f (d +:+ "P") !! ts),
             (Metric.select history t f (d +:+ "C") !! ts); simpl; try done.
    by rewrite fsub_fneg. }
  apply map_eq. intros ts. rewrite lookup_fmap.
  unfold risk_reversal_value. destruct normalize.
  - unfold assign_column, series_div.
    rewrite !map_lookup_imap, !lookup_merge, Ha, !Hd.
    destruct (difference history d f t !! ts) as [u|]; simpl; [|done].
    destruct (Metric.select history t f "ATM" !! ts) as [a|]; simpl; [|done].
    by rewrite fdiv_fneg.
  - rewrite !lookup_fmap, Hd.
    by destruct (difference history d f t !! ts).
Qed.

Lemma risk_reversal_antisymmetry_witness :
  let history :=
    [ {| Metric.timestamp := 100; Metric.value := Num 2; Metric.field := "mid_iv";
         Metric.delta := "15C"; Metric.tenor := "7D" |};
      {| Metric.timestamp := 100; Metric.value := Num 1; Metric.field := "mid_iv";
         Metric.delta := "15P"; Metric.tenor := "7D" |};
      {| Metric.timestamp := 100; Metric.value := Num 2; Metric.field := "mid_iv";
         Metric.delta := "ATM"; Metric.tenor := "7D" |} ] in
  let swapped :=
    [ {| Metric.timestamp := 100; Metric.value := Num 1; Metric.field := "mid_iv";
         Metric.delta := "15C"; Metric.tenor := "7D" |};
      {| Metric.timestamp := 100; Metric.value := Num 2; Metric.field := "mid_iv";
         Metric.delta := "15P"; Metric.tenor := "7D" |};
      {| Metric.timestamp := 100; Metric.value := Num 2; Metric.field := "mid_iv";
         Metric.delta := "ATM"; Metric.tenor := "7D" |} ] in
  risk_reversal_value swapped true "15" "mid_iv" "7D" =
  qneg <$> risk_reversal_value history true "15" "mid_iv" "7D".
Proof.
  apply (risk_reversal_antisymmetry
           [ {| Metric.timestamp := 100; Metric.value := Num 2; Metric.field := "mid_iv";
                Metric.delta := "15C"; Metric.tenor := "7D" |};
             {| Metric.timestamp := 100; Metric.value := Num 1; Metric.field := "mid_iv";
                Metric.delta := "15P"; Metric.tenor := "7D" |};
             {| Metric.timestamp := 100; Metric.value := Num 2; Metric.field := "mid_iv";
                Metric.delta := "ATM"; Metric.tenor := "7D" |} ]
           [ {| Metric.timestamp := 100; Metric.value := Num 1; Metric.field := "mid_iv";
                Metric.delta := "15C"; Metric.tenor := "7D" |};
             {| Metric.timestamp := 100; Metric.value := Num 2; Metric.field := "mid_iv";
                Metric.delta := "15P"; Metric.tenor := "7D" |};
             {| Metric.timestamp := 100; Metric.value := Num 2; Metric.field := "mid_iv";
                Metric.delta := "ATM"; Metric.tenor := "7D" |} ]
           true "15" "mid_iv" "7D").
  - reflexivity.
  - reflexivity.
  - reflexivity.
Defined.

End ReversalFacts.

(** ** More on the vol surface *)

Section SurfaceMore.
Import Surface.

(** X19: the surface call fails with [ValueError] exactly when an
    (expiry, delta) pair is given twice, with [KeyError] exactly when no pair
    is given twice and one of the 19 buckets is absent, and with no other
    error. *)
Theorem vol_surface_outcome (data : list (string * string * float)) :
  (get_vol_surface_for_obs_time data = Raise ValueError <-> ~ NoDup (data.*1)) /\
  (get_vol_surface_for_obs_time data = Raise KeyError <->
     NoDup (data.*1) /\ Exists (fun d => d ∉ data.*1.*2) deltas) /\
  (forall e, get_vol_surface_for_obs_time data = Raise e ->
             e = ValueError \/ e = KeyError).
Proof.
  unfold get_vol_surface_for_obs_time, pivot.
  destruct (decide (NoDup (data.*1))) as [Hnd|Hnd]; simpl.
  - unfold getitem_columns. simpl. case_decide as Hk.
    + split; [split; [done|tauto]|]. split; [|done].
      split; [done|]. intros [_ Hex]. exfalso.
      apply Exists_exists in Hex as (d & Hd & Hnot).
      apply Hnot, elem_of_labels. by apply (proj1 (Forall_forall _ _) Hk).
    + split; [split; [done|tauto]|]. split; [|intros e [= <-]; by right].
      split; [|done]. intros _. split; [done|].
      apply not_Forall_Exists in Hk; [|apply _].
      eapply Exists_impl; [exact Hk|]. intros d Hd Hin. apply Hd.
      by apply elem_of_labels.
  - split; [done|]. split; [|intros e [= <-]; by left].
    split; [done|]. by intros [? _].
Qed.

(** X20: in a returned surface the row labels are the distinct expiries of
    the input in ascending order, the cell of each input row of one of the
    19 buckets holds its vol, and a row of another bucket has no cell. *)
Theorem vol_surface_cells (data : list (string * string * float)) (df : DataFrame) :
  get_vol_surface_for_obs_time data = Ok df ->
  Sorted String.le (index df) /\
  NoDup (index df) /\
  (forall e, e ∈ index df <-> e ∈ data.*1.*1) /\
  (forall e d v, (e, d, v) ∈ data ->
     cells df !! (e, d) = if decide (d ∈ deltas) then Some v else None).
Proof.
  unfold get_vol_surface_for_obs_time, pivot.
  destruct (decide (NoDup (data.*1))) as [Hnd|]; simpl; [|done].
  unfold getitem_columns. simpl. case_decide as Hk; [|done].
  intros [= <-]. simpl. repeat split.
  - apply Sorted_merge_sort. apply _.
  - unfold labels. rewrite merge_sort_Permutation. apply NoDup_remove_dups.
  - by apply elem_of_labels.
  - by apply elem_of_labels.
  - intros e d v Hin.
    assert (Hl : (list_to_map data : gmap (string * string) float) !! (e, d) = Some v).
    { by apply elem_of_list_to_map_1. }
    case_decide as Hd.
    + apply map_lookup_filter_Some. done.
    + apply map_lookup_filter_None. right. intros v' _. done.
Qed.

Lemma vol_surface_cells_witness :
  exists df,
    get_vol_surface_for_obs_time
      (map (fun d => ("2023-09-29", d, Num 1)) deltas) = Ok df /\
    Sorted String.le (index df) /\
    NoDup (index df) /\
    (forall e, e ∈ index df <->
               e ∈ (map (fun d => ("2023-09-29", d, Num 1)) deltas).*1.*1) /\
    (forall e d v, (e, d, v) ∈ map (fun d => ("2023-09-29", d, Num 1)) deltas ->
       cells df !! (e, d) = if decide (d ∈ deltas) then Some v else None).
Proof.
  eexists. split; [vm_compute; reflexivity|].
  apply (vol_surface_cells (map (fun d => ("2023-09-29", d, Num 1)) deltas)).
  vm_compute. reflexivity.
Defined.

End SurfaceMore.

(** ** More on the filter predicate builder *)

Section PredicateMore.
Import Predicate.

Lemma append_assoc (s1 s2 s3 : string) : (s1 +:+ s2) +:+ s3 = s1 +:+ (s2 +:+ s3).
Proof.
  induction s1 as [|a s1 IH]; [done|].
  change (String a ((s1 +:+ s2) +:+ s3) = String a (s1 +:+ (s2 +:+ s3))).
  by rewrite IH.
Qed.

Lemma concat_cons_sep (sep x y : string) (r : list string) :
  String.concat sep ((x +:+ sep +:+ y) :: r) = x +:+ sep +:+ String.concat sep (y :: r).
Proof.
  destruct r as [|z r]; [done|].
  change (((x +:+ sep +:+ y) +:+ sep +:+ String.concat sep (z :: r)) =
          x +:+ sep +:+ (y +:+ sep +:+ String.concat sep (z :: r))).
  by rewrite !append_assoc.
Qed.

(** The loop of the builder adds one test per value to the text so far. *)
Lemma write_influx_field_loop (arg_name : string) (l : list scalar) :
  forall acc : string,
    "r." +:+ arg_name +:+ " == " +:+
      fold_left
        (fun r_arg a => r_arg +:+ " or r." +:+ arg_name +:+ " == " +:+ quoted a)
        l acc
    = String.concat " or "
        (("r." +:+ arg_name +:+ " == " +:+ acc) :: (equality_test arg_name <$> l)).
Proof.
  induction l as [|a l IH]; intros acc; [done|].
  simpl fold_left. rewrite IH. rewrite fmap_cons.
  transitivity
    (String.concat " or "
       ((("r." +:+ arg_name +:+ " == " +:+ acc) +:+ " or " +:+
           equality_test arg_name a) :: (equality_test arg_name <$> l))).
  - do 2 f_equal. unfold equality_test.
    change " or r." with (" or " +:+ "r.").
    by rewrite !append_assoc.
  - by rewrite concat_cons_sep.
Qed.

(** X21: for a list that is not empty, the filter line
    [r.<name> == {r_arg}] of a query reads as the tests
    [r.<name> == "<value>"] of the values, in their order, joined by
    [ or ]. *)
Theorem write_influx_field_disjunction (arg_name : string) (v : scalar)
    (rest : list scalar) :
  exists r_arg,
    _write_influx_field (List (v :: rest)) arg_name = Ok r_arg /\
    "r." +:+ arg_name +:+ " == " +:+ r_arg =
    String.concat " or " (equality_test arg_name <$> (v :: rest)).
Proof.
  eexists. split; [reflexivity|]. simpl drop. apply write_influx_field_loop.
Qed.

End PredicateMore.

(** ** More on the loader scheduling *)

Section LoaderMore.
Import Loader.

(** Every timeframe of the table is a positive number of minutes. *)
Lemma timeframe_minutes_pos (timeframe : string) (m : Z) :
  timeframe_minutes !! timeframe = Some m -> 0 < m.
Proof.
  intros H.
  assert (Hk : timeframe ∈ ["5m"; "15m"; "30m"; "1h"; "4h"; "1d"]).
  { apply timeframe_minutes_keys. by exists m. }
  repeat (apply elem_of_cons in Hk as [->|Hk]);
    try (by apply elem_of_nil in Hk);
    vm_compute in H; injection H as <-; lia.
Qed.

(** X22: the wait ends on a multiple of the timeframe, counted in seconds
    from the start of the current hour. *)
Theorem get_next_run_time_aligned (timeframe : string) (m : Z)
    (current_time : struct_time) :
  timeframe_minutes !! timeframe = Some m ->
  exists r,
    get_next_run_time timeframe current_time = Ok r /\
    (tm_min current_time * 60 + tm_sec current_time + r) mod (m * 60) = 0.
Proof.
  intros H. apply timeframe_minutes_pos in H as Hm.
  rewrite (get_next_run_time_lookup _ _ _ H). eexists. split; [reflexivity|].
  rewrite Z.add_mod_idemp_r by lia.
  pose proof (Z.div_mod (tm_min current_time) m ltac:(lia)) as Hdm.
  replace (tm_min current_time * 60 + tm_sec current_time +
           ((m - tm_min current_time mod m) * 60 - tm_sec current_time))
    with ((tm_min current_time / m + 1) * (m * 60)) by lia.
  apply Z.mod_mul. lia.
Qed.

Lemma get_next_run_time_aligned_witness :
  exists r,
    get_next_run_time "15m" {| tm_min := 47; tm_sec := 20 |} = Ok r /\
    (47 * 60 + 20 + r) mod (15 * 60) = 0.
Proof.
  apply (get_next_run_time_aligned "15m" 15 {| tm_min := 47; tm_sec := 20 |}).
  reflexivity.
Defined.

(** X23: with the seconds of the clock from 0 to 59, the wait is zero exactly
    when the clock is on a multiple of the timeframe with zero seconds. *)
Theorem get_next_run_time_zero_iff (timeframe : string) (m : Z)
    (current_time : struct_time) :
  timeframe_minutes !! timeframe = Some m ->
  0 <= tm_sec current_time < 60 ->
  get_next_run_time timeframe current_time = Ok 0 <->
  tm_sec current_time = 0 /\ tm_min current_time mod m = 0.
Proof.
  intros H Hs. apply timeframe_minutes_pos in H as Hm.
  rewrite (get_next_run_time_lookup _ _ _ H).
  pose proof (Z.mod_pos_bound (tm_min current_time) m Hm) as Hq.
  set (q := tm_min current_time mod m) in *.
  set (s := tm_sec current_time) in *.
  split.
  - intros [= Hr].
    destruct (decide ((m - q) * 60 - s = m * 60)) as [E|Hne]; [lia|].
    rewrite Z.mod_small in Hr by lia. lia.
  - intros [-> ->]. f_equal.
    replace ((m - 0) * 60 - 0) with (1 * (m * 60)) by lia.
    apply Z.mod_mul. lia.
Qed.

Lemma get_next_run_time_zero_iff_witness :
  get_next_run_time "5m" {| tm_min := 35; tm_sec := 0 |} = Ok 0 <->
  0 = 0 /\ 35 mod 5 = 0.
Proof.
  apply (get_next_run_time_zero_iff "5m" 5 {| tm_min := 35; tm_sec := 0 |}).
  - reflexivity.
  - simpl. lia.
Defined.

(** X24: for a timeframe of an hour or more and a clock off the full hour,
    the wait runs to that many minutes after the start of the current hour,
    whatever the hour of the day: it is [(m - tm_min) * 60 - tm_sec] seconds,
    more than the timeframe less one hour. *)
Theorem get_next_run_time_long_timeframe (timeframe : string) (m : Z)
    (current_time : struct_time) :
  timeframe_minutes !! timeframe = Some m ->
  60 <= m ->
  0 <= tm_min current_time < 60 ->
  0 <= tm_sec current_time < 60 ->
  ~ (tm_min current_time = 0 /\ tm_sec current_time = 0) ->
  get_next_run_time timeframe current_time =
    Ok ((m - tm_min current_time) * 60 - tm_sec current_time) /\
  (m - 60) * 60 < (m - tm_min current_time) * 60 - tm_sec current_time.
Proof.
  intros H Hm Hmin Hsec Hoff.
  rewrite (get_next_run_time_lookup _ _ _ H).
  rewrite (Z.mod_small (tm_min current_time) m) by lia.
  split; [|lia]. f_equal. apply Z.mod_small. lia.
Qed.

Lemma get_next_run_time_long_timeframe_witness :
  get_next_run_time "4h" {| tm_min := 30; tm_sec := 0 |} =
    Ok ((240 - 30) * 60 - 0) /\
  (240 - 60) * 60 < (240 - 30) * 60 - 0.
Proof.
  apply (get_next_run_time_long_timeframe "4h" 240 {| tm_min := 30; tm_sec := 0 |}).
  - reflexivity.
  - lia.
  - simpl. lia.
  - simpl. lia.
  - simpl. lia.
Defined.

(** X25: a timeframe that is not one of the six keys raises [KeyError], and
    only such a timeframe does. *)
Theorem get_next_run_time_unknown (timeframe : string) (current_time : struct_time) :
  timeframe ∉ ["5m"; "15m"; "30m"; "1h"; "4h"; "1d"] <->
  get_next_run_time timeframe current_time = Raise KeyError.
Proof.
  rewrite timeframe_minutes_keys.
  unfold get_next_run_time, lookup_timeframe.
  destruct (timeframe_minutes !! timeframe) as [m|]; simpl.
  - split; [|done]. intros Hn. exfalso. apply Hn. by exists m.
  - split; [done|]. intros _ [m Hm]. done.
Qed.

End LoaderMore.

(** ** Loader: fetching and collecting *)

Section FetchFacts.
Import Fetch.

(** X26: responses with neither the rate-limit error nor a result use no
    retry and cause no sleep: the loop goes on as if they had not come, so
    that on such responses alone the call never returns. *)
Theorem fetch_skips_unexpected {payload : Type} (retries : Z) (evs rest : list (event payload)) :
  0 < retries ->
  Forall unexpected evs ->
  loop retries (evs ++ rest) = loop retries rest /\
  loop retries evs = (Waiting retries, []).
Proof.
  intros Hr Hall. induction Hall as [|ev evs (h & b & -> & He & Hres) _ [IH1 IH2]].
  - split; [done|]. simpl. by rewrite decide_True.
  - split; simpl; rewrite decide_True by done; rewrite decide_False by done;
      rewrite Hres; [exact IH1|exact IH2].
Qed.

Lemma fetch_skips_unexpected_witness :
  let ev : event Z := Reply Absent (Some {| error := Some 13009; result := None |}) in
  loop 5 ([ev; ev; ev] ++ [RequestFailed]) = loop 5 [RequestFailed] /\
  loop 5 [ev; ev; ev] = (Waiting 5, []).
Proof.
  intros ev.
  apply (fetch_skips_unexpected 5
           (replicate 3 (Reply Absent (Some {| error := Some 13009; result := None |})))
           [RequestFailed]).
  - lia.
  - repeat constructor; eexists _, _; (split; [reflexivity|]); split; done.
Defined.

(** After [n] rate-limited responses the loop has slept their waits and
    goes on with [n] retries fewer. *)
Lemma loop_rate_limited {payload : Type} (evs : list (event payload)) (ws : list Z) :
  Forall2 rate_limited evs ws ->
  forall retries rest,
    Z.of_nat (length evs) <= retries ->
    loop retries (evs ++ rest) =
    ((loop (retries - Z.of_nat (length evs)) rest).1,
     ws ++ (loop (retries - Z.of_nat (length evs)) rest).2).
Proof.
  induction 1 as [|ev w evs ws (h & b & -> & He & Hw & Hpos) _ IH];
    intros retries rest Hlen.
  - simpl. rewrite Z.sub_0_r. by destruct (loop retries rest).
  - simpl in Hlen. simpl loop.
    rewrite decide_True by lia. rewrite decide_True by done.
    rewrite Hw. rewrite decide_False by lia.
    rewrite IH by lia. simpl.
    by replace (retries - 1 - Z.of_nat (length evs))
      with (retries - Z.of_nat (S (length evs))) by lia.
Qed.

(** X27: after five rate-limited responses the call gives up: it returns
    [None] whatever comes next, having slept the five waits in order. *)
Theorem fetch_gives_up {payload : Type} (evs rest : list (event payload)) (ws : list Z) :
  Forall2 rate_limited evs ws ->
  length evs = 5%nat ->
  fetch_option_data (evs ++ rest) = (Returned None, ws).
Proof.
  intros Hall Hlen. unfold fetch_option_data.
  rewrite (loop_rate_limited _ _ Hall) by lia. rewrite Hlen.
  change (5 - Z.of_nat 5) with 0. destruct rest; simpl; by rewrite app_nil_r.
Qed.

Lemma fetch_gives_up_witness :
  let ev : event Z :=
    Reply (Seconds 1) (Some {| error := Some 10028; result := None |}) in
  fetch_option_data
    ([ev; ev; ev; ev; ev] ++
     [Reply Absent (Some {| error := None; result := Some 7 |})])
  = (Returned None, [1; 1; 1; 1; 1]).
Proof.
  intros ev.
  apply (fetch_gives_up
           (replicate 5 (Reply (Seconds 1) (Some {| error := Some 10028; result := None |})))
           [Reply Absent (Some {| error := None; result := Some 7 |})]
           [1; 1; 1; 1; 1]).
  - repeat constructor; eexists _, _; (split; [reflexivity|]); repeat split; lia.
  - reflexivity.
Defined.

(** X28: a response with a result and without the rate-limit error that
    comes after fewer than five rate-limited responses is returned, after
    the waits of these have been slept. *)
Theorem fetch_returns_result {payload : Type} (evs rest : list (event payload)) (ws : list Z)
    (h : header) (b : body payload) (p : payload) :
  Forall2 rate_limited evs ws ->
  (length evs < 5)%nat ->
  error b <> Some 10028 ->
  result b = Some p ->
  fetch_option_data (evs ++ Reply h (Some b) :: rest) = (Returned (Some p), ws).
Proof.
  intros Hall Hlen He Hres. unfold fetch_option_data.
  rewrite (loop_rate_limited _ _ Hall) by lia. simpl.
  rewrite decide_True by lia. rewrite decide_False by done. rewrite Hres.
  simpl. by rewrite app_nil_r.
Qed.

Lemma fetch_returns_result_witness :
  fetch_option_data
    ([Reply (Seconds 3) (Some {| error := Some 10028; result := None |})] ++
     Reply Absent (Some {| error := None; result := Some 7 |}) :: [])
  = (Returned (Some 7), [3]).
Proof.
  apply (fetch_returns_result
           [Reply (Seconds 3) (Some {| error := Some 10028; result := None |})]
           [] [3] Absent {| error := None; result := Some 7 |} 7).
  - repeat constructor; eexists _, _; (split; [reflexivity|]); repeat split; lia.
  - simpl. lia.
  - done.
  - reflexivity.
Defined.

End FetchFacts.

(** ** Loader: the lists of instruments *)

Section CollectFacts.
Import Fetch.

(** The first [c] lists, put end to end, are the first [c * 40]
    instruments. *)
Lemma chunks_concat {A : Type} (l : list A) (c : nat) :
  concat ((fun k => take instruments_per_request
                      (drop (k * instruments_per_request) l)) <$> seq 0 c)
  = take (c * instruments_per_request) l.
Proof.
  induction c as [|c IH]; [by rewrite take_0|].
  rewrite seq_S, fmap_app, concat_app, IH. simpl.
  rewrite app_nil_r, take_take_drop. f_equal. unfold instruments_per_request. lia.
Qed.

Lemma omap_concat {A B : Type} (f : A -> option B) (ls : list (list A)) :
  omap f (concat ls) = concat ((fun l : list A => omap f l) <$> ls).
Proof.
  induction ls as [|l ls IH]; [done|].
  simpl. by rewrite omap_app, IH.
Qed.

(** The number of lists covers the instruments, with less than one list to
    spare. *)
Lemma lists_count (n : nat) :
  (n <= (n + 39) `div` 40 * 40 /\ (n + 39) `div` 40 * 40 < n + 40)%nat.
Proof.
  pose proof (Nat.div_mod (n + 39) 40 ltac:(lia)).
  pose proof (Nat.mod_upper_bound (n + 39) 40 ltac:(lia)). lia.
Qed.

Lemma instruments_lists_concat {A : Type} (instruments : list A) :
  concat (instruments_lists instruments) = instruments.
Proof.
  unfold instruments_lists. rewrite chunks_concat.
  apply take_ge. unfold instruments_per_request.
  change (40 - 1)%nat with 39%nat.
  pose proof (lists_count (length instruments)). lia.
Qed.

(** X29: the lists of instruments, put end to end, are the instruments in
    their order; each list has from 1 to 40 of them, and there are as many
    lists as the number of instruments divided by 40, rounded up. *)
Theorem instruments_lists_partition {A : Type} (instruments : list A) :
  concat (instruments_lists instruments) = instruments /\
  Forall (fun inst_list => (1 <= length inst_list <= 40)%nat)
         (instruments_lists instruments) /\
  length (instruments_lists instruments) = ((length instruments + 39) `div` 40)%nat.
Proof.
  split; [apply instruments_lists_concat|].
  unfold instruments_lists, instruments_per_request.
  change (40 - 1)%nat with 39%nat.
  pose proof (lists_count (length instruments)) as Hc.
  split.
  - apply Forall_fmap, Forall_forall. intros k Hk.
    apply elem_of_seq in Hk. simpl.
    rewrite length_take, length_drop. lia.
  - by rewrite length_fmap, length_seq.
Qed.

(** The loop appends the order books of each list. *)
Lemma collect_fold {A payload : Type} (fetch : A -> option payload)
    (ls : list (list A)) :
  forall acc,
    fold_left
      (fun options_data inst_list =>
         let result := omap fetch inst_list in
         if decide (0 < length result)%nat then options_data ++ result
         else options_data)
      ls acc
    = acc ++ concat ((fun l : list A => omap fetch l) <$> ls).
Proof.
  induction ls as [|l ls IH]; intros acc; simpl; [by rewrite app_nil_r|].
  rewrite IH. case_decide as Hl.
  - by rewrite app_assoc.
  - destruct (omap fetch l); [done|simpl in Hl; lia].
Qed.


End CollectFacts.
